(** * The disposable-domain list refresher (blacklist-email.py)

    A shallow embedding of the normalizer, the allowlist filter, the set
    aggregator and the reconciler of [blacklist-email.py], and the
    properties its specification states about them.

    Modelling choices.
    - A Python [str] is a [string]: characters are the code points below
      U+0100, so every ASCII list line is covered; the whitespace table of
      [str.strip] and the case table of [str.lower] are Python's for that
      range.
    - A Python [set] of [str] is a [gset string]; [len] is [size]; Python
      integers are [Z].
    - The file system is a [gmap] from paths to file contents; the network
      is a function from URLs to line streams that end normally or with an
      exception.
    - [log] appends an entry to the list of log entries (the timestamp it
      prints is left out). *)

From Stdlib Require Import ZArith Ascii String.
From stdpp Require Import gmap strings list sorting.

#[local] Set Warnings "-clear-no-such-hyp".

Open Scope string_scope.

(** * Part I: the program *)

(** ** Python string primitives *)

Module Py.

(** [Py_UNICODE_ISSPACE] below U+0100: TAB..CR, FS..US, SPACE, NEL, NBSP. *)
Definition isspace (c : ascii) : bool :=
  let n := N_of_ascii c in
  ((9 <=? n) && (n <=? 13) || (28 <=? n) && (n <=? 32)
   || (n =? 133) || (n =? 160))%N.

(** Characters that [str.lower] changes below U+0100: A..Z, and the Latin-1
    capitals U+00C0..U+00DE except the multiplication sign U+00D7. *)
Definition isupper (c : ascii) : bool :=
  let n := N_of_ascii c in
  ((65 <=? n) && (n <=? 90)
   || (192 <=? n) && (n <=? 222) && negb (n =? 215))%N.

Definition lower_char (c : ascii) : ascii :=
  if isupper c then ascii_of_N (N_of_ascii c + 32) else c.

Fixpoint lower (s : string) : string :=
  match s with
  | EmptyString => EmptyString
  | String c r => String (lower_char c) (lower r)
  end.

(** Truthiness of a string: [if s] holds for a string that is not empty. *)
Definition truthy (s : string) : bool :=
  match s with
  | EmptyString => false
  | String _ _ => true
  end.

Fixpoint lstrip (s : string) : string :=
  match s with
  | EmptyString => EmptyString
  | String c r => if isspace c then lstrip r else s
  end.

Fixpoint rstrip (s : string) : string :=
  match s with
  | EmptyString => EmptyString
  | String c r =>
      let r' := rstrip r in
      if isspace c && negb (truthy r') then EmptyString else String c r'
  end.

(** [s.strip()] *)
Definition strip (s : string) : string := rstrip (lstrip s).

(** [s.startswith(p)] *)
Definition startswith (p s : string) : bool := String.prefix p s.

(** [s.endswith(p)] *)
Definition endswith (p s : string) : bool :=
  String.prefix (String.rev p) (String.rev s).

(** [sub in s], substring test *)
Fixpoint contains (sub s : string) : bool :=
  match s with
  | EmptyString => negb (truthy sub)
  | String _ r => String.prefix sub s || contains sub r
  end.

(** [s.replace(old, new)] for a non-empty [old]: occurrences are found from
    the left and do not overlap; [skip] counts the characters of the current
    occurrence still to be passed over. *)
Fixpoint replace_from (old new : string) (skip : nat) (s : string) : string :=
  match s with
  | EmptyString => EmptyString
  | String c r =>
      match skip with
      | S k => replace_from old new k r
      | O =>
          if String.prefix old s
          then new +:+ replace_from old new (String.length old - 1) r
          else String c (replace_from old new 0 r)
      end
  end.

Definition replace (old new s : string) : string := replace_from old new 0 s.

(** [s.split(sep)] for a one-character separator. *)
Fixpoint split (sep : ascii) (s : string) : list string :=
  match s with
  | EmptyString => [EmptyString]
  | String c r =>
      if Ascii.eqb c sep then EmptyString :: split sep r
      else match split sep r with
           | [] => [String c EmptyString]
           | h :: t => String c h :: t
           end
  end.

(** [s.split(sep, 1)] for a one-character separator. *)
Fixpoint split1 (sep : ascii) (s : string) : list string :=
  match s with
  | EmptyString => [EmptyString]
  | String c r =>
      if Ascii.eqb c sep then [EmptyString; r]
      else match split1 sep r with
           | [] => [String c EmptyString]
           | h :: t => String c h :: t
           end
  end.

(** [sep.join(l)] *)
Fixpoint join (sep : string) (l : list string) : string :=
  match l with
  | [] => EmptyString
  | [x] => x
  | x :: rest => x +:+ sep +:+ join sep rest
  end.

(** [l[-n:]] for [n > 0] *)
Definition last_n {A} (n : nat) (l : list A) : list A :=
  drop (length l - n) l.

(** [l[i]] where the index is known to be in range; the default stands for
    the [IndexError] of an index out of range. *)
Definition item (l : list string) (i : nat) : string := nth i l EmptyString.

End Py.

(** ** The normalizer *)

(** [normalize_domain], lines 30 to 50. *)
Definition normalize_domain (entry : string) : string :=
  let domain := Py.strip entry in
  if negb (Py.truthy domain) then "" else
  let domain := Py.replace "## " "" domain in
  if Py.startswith "#" domain then "" else
  let domain :=
    if Py.contains "#" domain
    then Py.strip (Py.item (Py.split1 "#" domain) 0)
    else domain in
  if negb (Py.truthy domain) then "" else
  let domain :=
    if Py.contains "@" domain
    then Py.item (Py.split1 "@" domain) 1
    else domain in
  let cleaned := Py.join "." (filter (λ segment, Py.truthy segment = true) (Py.split "." domain)) in
  if negb (Py.truthy cleaned) then "" else
  let parts := Py.split "." cleaned in
  let cleaned :=
    if (2 <? length parts)%nat then Py.join "." (Py.last_n 2 parts) else cleaned in
  Py.lower cleaned.

(** The value of [domain] at line 40, after the trimming, the removal of the
    marker and the cut of the comment. *)
Definition uncommented (entry : string) : string :=
  let domain := Py.strip entry in
  let domain := Py.replace "## " "" domain in
  if Py.contains "#" domain
  then Py.strip (Py.item (Py.split1 "#" domain) 0)
  else domain.

(** ** Exceptions, the network and the file system *)

(** The exception classes [fetch_domains_from_url] names in its [except]
    clause, and one for every other exception. *)
Inductive exn : Type :=
  | HTTPError
  | URLError
  | OSError
  | OtherException.

(** What [urlopen(url, timeout=30)] and the iteration over the response
    deliver: the lines of the body in turn, until the end of the body or an
    exception. [Broken] at the head is a failure of [urlopen] itself. A line
    is taken after [raw_line.decode("utf-8", errors="ignore")], which never
    raises. *)
Inductive stream : Type :=
  | Eof
  | Line (raw_line : string) (rest : stream)
  | Broken (exc : exn).

Inductive level : Type := INFO | WARN.

(** The messages of the program, with the values they interpolate. *)
Inductive message : Type :=
  | UnableToLoad (url : string) (exc : exn)
  | AllowlistEmpty
  | RemovedExisting (removed_existing : Z)
  | SkippedAllowlisted (skipped : Z)
  | NoDomainsFetched
  | AddedNew (count : Z)
  | OutputRefreshed
  | NoNewDomains.

Record environment : Type := {
  script_dir : string;          (* os.path.dirname(__file__) *)
  urlopen : string → stream
}.

Record world : Type := {
  files : gmap string string;   (* path ↦ content *)
  printed : list (level * message)
}.

(** ** Computations: state over [world], with exceptions *)

Inductive result (A : Type) : Type :=
  | Returned (a : A)
  | Raised (exc : exn).
Arguments Returned {A} a.
Arguments Raised {A} exc.

Definition M (A : Type) : Type := world → result A * world.

#[global] Instance M_ret : MRet M := λ A a w, (Returned a, w).

#[global] Instance M_bind : MBind M := λ A B f m w,
  match m w with
  | (Returned a, w') => f a w'
  | (Raised exc, w') => (Raised exc, w')
  end.

Definition raise {A} (exc : exn) : M A := λ w, (Raised exc, w).

Definition read_file (path : string) : M (option string) :=
  λ w, (Returned (files w !! path), w).

Definition write_file (path content : string) : M unit :=
  λ w, (Returned tt, {| files := <[path := content]> (files w); printed := printed w |}).

(** [log], lines 19 to 22. *)
Definition log (msg : message) (lvl : level) : M unit :=
  λ w, (Returned tt, {| files := files w; printed := printed w ++ [(lvl, msg)] |}).

Definition when (b : bool) (m : M unit) : M unit := if b then m else mret tt.

(** ** Constants *)

Definition SOURCE_URLS : list string := [
  "https://raw.githubusercontent.com/disposable/disposable-email-domains/refs/heads/master/domains.txt";
  "https://raw.githubusercontent.com/disposable-email-domains/disposable-email-domains/refs/heads/main/disposable_email_blocklist.conf";
  "https://raw.githubusercontent.com/7c/fakefilter/refs/heads/main/txt/data.txt";
  "https://raw.githubusercontent.com/wesbos/burner-email-providers/refs/heads/master/emails.txt"
].

Definition ALLOWLIST_URL : string :=
  "https://raw.githubusercontent.com/disposable-email-domains/disposable-email-domains/refs/heads/main/allowlist.conf".

Definition OUTPUT_FILENAME : string := "output.txt".

(** ** Paths and files *)

(** [posixpath.join] of two components. *)
Definition path_join (a p : string) : string :=
  if Py.startswith "/" p then p
  else if negb (Py.truthy a) || Py.endswith "/" a then a +:+ p
  else a +:+ "/" +:+ p.

(** [resolve_path], lines 25 to 27. *)
Definition resolve_path (env : environment) (filename : string) : string :=
  path_join (script_dir env) filename.

(** Line feed and carriage return, and the line terminator as a string. *)
Definition LF : ascii := "010".
Definition CR : ascii := "013".

Definition nl : string := String LF "".

(** The lines a file opened for reading in text mode yields: a line ends at
    LF, CR or CR LF, each of them delivered as LF; a last line without
    terminator is delivered as it is. *)
Fixpoint readlines (content : string) : list string :=
  match content with
  | EmptyString => []
  | String c r =>
      if Ascii.eqb c LF then String LF "" :: readlines r
      else if Ascii.eqb c CR then
        match r with
        | String c' r' =>
            if Ascii.eqb c' LF then String LF "" :: readlines r'
            else String LF "" :: readlines r
        | EmptyString => [String LF ""]
        end
      else
        match readlines r with
        | [] => [String c ""]
        | h :: t => String c h :: t
        end
  end.

(** A set is truthy when it is not empty. *)
Definition nonempty_set (domains : gset string) : bool :=
  bool_decide (domains ≠ ∅).

(** ** Loading, fetching, filtering and writing *)

(** [load_existing_domains], lines 53 to 62. *)
Definition load_existing_domains (output_path : string) : M (gset string) :=
  file ← read_file output_path;
  match file with
  | Some content =>
      mret (foldl (λ domains line,
                     let domain := normalize_domain line in
                     if Py.truthy domain then domains ∪ {[domain]} else domains)
                  ∅ (readlines content))
  | None => mret ∅
  end.

(** The loop of [fetch_domains_from_url] over the response, lines 70 to 73:
    the set gathered, and the exception that ended the iteration, if any. *)
Fixpoint read_response (response : stream) (domains : gset string)
  : gset string * option exn :=
  match response with
  | Eof => (domains, None)
  | Line raw_line rest =>
      let domain := normalize_domain raw_line in
      read_response rest (if Py.truthy domain then domains ∪ {[domain]} else domains)
  | Broken exc => (domains, Some exc)
  end.

(** [except (HTTPError, URLError, OSError)] *)
Definition caught (exc : exn) : bool :=
  match exc with
  | HTTPError | URLError | OSError => true
  | OtherException => false
  end.

(** [fetch_domains_from_url], lines 65 to 76. *)
Definition fetch_domains_from_url (env : environment) (url : string) : M (gset string) :=
  let '(domains, failure) := read_response (urlopen env url) ∅ in
  match failure with
  | None => mret domains
  | Some exc =>
      if caught exc then log (UnableToLoad url exc) WARN;; mret domains
      else raise exc
  end.

(** The loop of [fetch_multiple_sources], lines 82 and 83. *)
Fixpoint aggregate (env : environment) (aggregated : gset string) (urls : list string)
  : M (gset string) :=
  match urls with
  | [] => mret aggregated
  | url :: rest =>
      domains ← fetch_domains_from_url env url;
      aggregate env (aggregated ∪ domains) rest
  end.

(** [fetch_multiple_sources], lines 79 to 84. *)
Definition fetch_multiple_sources (env : environment) (urls : list string) : M (gset string) :=
  aggregate env ∅ urls.

(** [apply_allowlist], lines 87 to 92. *)
Definition apply_allowlist (domains allowlist : gset string) : gset string * Z :=
  if negb (nonempty_set domains) || negb (nonempty_set allowlist) then (domains, 0%Z)
  else
    let filtered := domains ∖ allowlist in
    (filtered, (Z.of_nat (size domains) - Z.of_nat (size filtered))%Z).

(** [sorted(domains)]: strings compare by code points. *)
Definition str_le (a b : string) : Prop := String.leb a b = true.

#[global] Instance str_le_dec : RelDecision str_le.
Proof. intros a b. unfold str_le. apply _. Defined.

Definition sorted (domains : gset string) : list string :=
  merge_sort str_le (elements domains).

(** The text [write_domains] writes: each domain followed by LF. *)
Definition render (domains : list string) : string :=
  foldr (λ domain text, domain +:+ String LF "" +:+ text) "" domains.

(** [write_domains], lines 95 to 99. *)
Definition write_domains (domains : gset string) (output_path : string) : M unit :=
  write_file output_path (render (sorted domains)).

(** ** The reconciler *)

(** [process_sources], lines 102 to 135. *)
Definition process_sources (env : environment) (urls : list string)
    (output_filename : string) : M Z :=
  let output_path := resolve_path env output_filename in
  persisted_domains ← load_existing_domains output_path;
  allowlist_domains ←
    (if Py.truthy ALLOWLIST_URL then fetch_domains_from_url env ALLOWLIST_URL
     else mret ∅);
  when (Py.truthy ALLOWLIST_URL && negb (nonempty_set allowlist_domains))
       (log AllowlistEmpty WARN);;
  let '(sanitized_existing, removed_existing) :=
    apply_allowlist persisted_domains allowlist_domains in
  when (negb (removed_existing =? 0)%Z)
       (log (RemovedExisting removed_existing) INFO);;
  fetched_domains ← fetch_multiple_sources env urls;
  let '(filtered_fetched, skipped) :=
    apply_allowlist fetched_domains allowlist_domains in
  when (negb (skipped =? 0)%Z) (log (SkippedAllowlisted skipped) INFO);;
  if negb (nonempty_set filtered_fetched) && (removed_existing =? 0)%Z then
    log NoDomainsFetched INFO;;
    mret 0%Z
  else
    let new_domains := filtered_fetched ∖ sanitized_existing in
    let final_domains := sanitized_existing ∪ filtered_fetched in
    (if bool_decide (final_domains ≠ persisted_domains) then
       write_domains final_domains output_path;;
       if nonempty_set new_domains then
         log (AddedNew (Z.of_nat (size new_domains))) INFO
       else when (negb (removed_existing =? 0)%Z) (log OutputRefreshed INFO)
     else log NoNewDomains INFO);;
    mret (Z.of_nat (size new_domains)).

(** * Part II: what the properties are stated with *)

(** ** Observations of a run *)

(** The world after some more entries were printed. *)
Definition emit (entries : list (level * message)) (w : world) : world :=
  {| files := files w; printed := printed w ++ entries |}.

(** A computation yields [a] when it returns [a] in every world. *)
Definition yields {A} (m : M A) (a : A) : Prop :=
  ∀ w, (m w).1 = Returned a.

(** The Domain Set on disk: what [load_existing_domains] reads. *)
Definition on_disk (w : world) (path : string) : gset string :=
  match (load_existing_domains path w).1 with
  | Returned domains => domains
  | Raised _ => ∅
  end.

(** The file a run of [write_domains] leaves at [path]. *)
Definition written (path : string) (domains : gset string) (w : world) : world :=
  {| files := <[path := render (sorted domains)]> (files w); printed := printed w |}.

Definition add_line (domains : gset string) (line : string) : gset string :=
  let domain := normalize_domain line in
  if Py.truthy domain then domains ∪ {[domain]} else domains.

(** The Domain Set a file content holds. *)
Definition domains_in (content : string) : gset string :=
  foldl (λ domains line,
           let domain := normalize_domain line in
           if Py.truthy domain then domains ∪ {[domain]} else domains)
        ∅ (readlines content).

(** The lines a response delivers before it ends, and how it ends. *)
Fixpoint delivered (response : stream) : list string :=
  match response with
  | Eof | Broken _ => []
  | Line raw_line rest => raw_line :: delivered rest
  end.

Fixpoint ending (response : stream) : option exn :=
  match response with
  | Eof => None
  | Broken exc => Some exc
  | Line _ rest => ending rest
  end.

(** The set of the non-empty normalized forms of some lines. *)
Definition normalized (lines : list string) : gset string :=
  list_to_set (filter (λ domain, Py.truthy domain = true) (normalize_domain <$> lines)).

(** The union of what the sources deliver. *)
Definition delivered_by (env : environment) (urls : list string) : gset string :=
  ⋃ ((λ url, normalized (delivered (urlopen env url))) <$> urls).

(** ** The normalizer as the specification words it *)

Module Spec.

(** A step whose result is empty stops the pipeline. *)
Definition stop_if_empty (s : string) : option string :=
  if Py.truthy s then Some s else None.

(** Whether the character occurs in the string. *)
Fixpoint occurs (c : ascii) (s : string) : bool :=
  match s with
  | EmptyString => false
  | String x r => Ascii.eqb x c || occurs c r
  end.

(** The text before the first occurrence of the character. *)
Fixpoint before (c : ascii) (s : string) : string :=
  match s with
  | EmptyString => EmptyString
  | String x r => if Ascii.eqb x c then EmptyString else String x (before c r)
  end.

(** The text after the first occurrence of the character. *)
Fixpoint after (c : ascii) (s : string) : string :=
  match s with
  | EmptyString => EmptyString
  | String x r => if Ascii.eqb x c then r else after c r
  end.

(** The string without the occurrences of the marker, a hash, a hash and a
    space. *)
Fixpoint delete_marker (s : string) : string :=
  match s with
  | EmptyString => EmptyString
  | String a r =>
      match r with
      | String b (String c r') =>
          if Ascii.eqb a "#" && Ascii.eqb b "#" && Ascii.eqb c " "
          then delete_marker r'
          else String a (delete_marker r)
      | _ => String a (delete_marker r)
      end
  end.

(** Rule 1: trim. *)
Definition rule1 (line : string) : option string :=
  stop_if_empty (Py.strip line).

(** Rule 2: delete the marker wherever it appears. *)
Definition rule2 (s : string) : option string :=
  stop_if_empty (delete_marker s).

(** Rule 3: a line that starts with a hash is a comment. *)
Definition rule3 (s : string) : option string :=
  match s with
  | String c _ => if Ascii.eqb c "#" then None else Some s
  | EmptyString => Some s
  end.

(** Rule 4: cut at the first hash and trim again. *)
Definition rule4 (s : string) : option string :=
  stop_if_empty (if occurs "#" s then Py.strip (before "#" s) else s).

(** Rule 5: keep what follows the first at sign. *)
Definition rule5 (s : string) : option string :=
  stop_if_empty (if occurs "@" s then after "@" s else s).

(** Rule 6: split on dots, drop the empty segments, join again. *)
Definition rule6 (s : string) : option string :=
  stop_if_empty
    (Py.join "." (filter (λ segment, segment ≠ EmptyString) (Py.split "." s))).

(** Rule 7: with more than two labels, keep the last two. *)
Definition rule7 (s : string) : option string :=
  stop_if_empty
    (match rev (Py.split "." s) with
     | last :: before_last :: _ :: _ => Py.join "." [before_last; last]
     | _ => s
     end).

(** Rule 8: lowercase. *)
Definition rule8 (s : string) : option string :=
  stop_if_empty (Py.lower s).

Definition normalize (raw_line : string) : string :=
  default EmptyString
    (s1 ← rule1 raw_line; s2 ← rule2 s1; s3 ← rule3 s2; s4 ← rule4 s3;
     s5 ← rule5 s4; s6 ← rule6 s5; s7 ← rule7 s6; rule8 s7).

End Spec.

(** The filter without its fast path: the difference, and the number of
    candidates that are allowlisted. *)
Definition apply_allowlist_uniform (candidates allow : gset string) : gset string * Z :=
  (candidates ∖ allow, Z.of_nat (size (candidates ∩ allow))).

(** ** Shapes of strings *)

Fixpoint all_chars (P : ascii → bool) (s : string) : bool :=
  match s with
  | EmptyString => true
  | String c r => P c && all_chars P r
  end.

Fixpoint count_char (c : ascii) (s : string) : nat :=
  match s with
  | EmptyString => 0
  | String x r => (if Ascii.eqb x c then 1 else 0) + count_char c r
  end.

Definition is_not (c : ascii) : ascii → bool := λ x, negb (Ascii.eqb x c).
Definition not_space : ascii → bool := λ x, negb (Py.isspace x).

(** Whether the last character is a whitespace character. *)
Fixpoint ends_with_space (s : string) : bool :=
  match s with
  | EmptyString => false
  | String c r => if Py.truthy r then ends_with_space r else Py.isspace c
  end.

(** A domain is plain when it holds no at sign and no whitespace. *)
Definition plain (domain : string) : Prop :=
  Py.contains "@" domain = false ∧ all_chars not_space domain = true.

#[global] Instance plain_dec domain : Decision (plain domain).
Proof. unfold plain. apply _. Defined.

Definition label (segment : string) : Prop :=
  segment ≠ "" ∧ all_chars (is_not ".") segment = true.

(** Every domain loaded or fetched is a non-empty result of the normalizer. *)
Definition normal_form (domain : string) : Prop :=
  domain ≠ "" ∧ ∃ line, domain = normalize_domain line.

(** A domain reads back when a file that holds just its line loads as the
    set of that one domain. *)
Definition reads_back (domain : string) : Prop :=
  domains_in (domain +:+ nl) = {[domain]}.

#[global] Instance reads_back_dec domain : Decision (reads_back domain).
Proof. unfold reads_back. apply _. Defined.

(** ** Sample environments *)

Definition sample_url : string := "https://example.org/domains.txt".

(** An environment whose allowlist URL delivers [allow], whose sample URL
    delivers [source] and whose other URLs cannot be opened. *)
Definition sample_env (allow source : stream) : environment :=
  {| script_dir := "/srv/app";
     urlopen := λ url,
       if String.eqb url ALLOWLIST_URL then allow
       else if String.eqb url sample_url then source
       else Broken URLError |}.

Definition sample_path : string := "/srv/app/output.txt".

Definition sample_world (content : string) : world :=
  {| files := {[ sample_path := content ]}; printed := [] |}.

Definition empty_world : world := {| files := ∅; printed := [] |}.

(** No allowlist, and no source that can be opened. *)
Definition outage_env : environment :=
  sample_env (Broken URLError) (Broken OSError).

(** No allowlist, and a source that delivers b.com and c.com. *)
Definition merge_env : environment :=
  sample_env (Broken URLError) (Line ("b.com" +:+ nl) (Line ("c.com" +:+ nl) Eof)).

(** The allowlist a.com, and no source that can be opened. *)
Definition removal_env : environment :=
  sample_env (Line ("a.com" +:+ nl) Eof) (Broken URLError).

(** The allowlist b.com, and a source that delivers b.com and c.com. *)
Definition filter_env : environment :=
  sample_env (Line ("b.com" +:+ nl) Eof)
    (Line ("b.com" +:+ nl) (Line ("c.com" +:+ nl) Eof)).

(** No allowlist, and a source that delivers an address with two at signs. *)
Definition two_at_env : environment :=
  sample_env (Broken URLError) (Line ("a@b@c.com" +:+ nl) Eof).

(** The allowlist c.com, and the same source. *)
Definition two_at_allow_env : environment :=
  sample_env (Line ("c.com" +:+ nl) Eof) (Line ("a@b@c.com" +:+ nl) Eof).

(** A source that delivers one line and then fails with OSError. *)
Definition broken_env : environment :=
  sample_env Eof (Line ("a.com" +:+ nl) (Broken OSError)).

(** Two cycles in a row from an empty file system, with [two_at_env]. *)
Definition first_cycle : result Z * world :=
  process_sources two_at_env [sample_url] OUTPUT_FILENAME empty_world.

Definition second_cycle : result Z * world :=
  process_sources two_at_env [sample_url] OUTPUT_FILENAME first_cycle.2.

(** One cycle from an empty file system, with [two_at_allow_env], and the
    cycle after it. *)
Definition allow_cycle : result Z * world :=
  process_sources two_at_allow_env [sample_url] OUTPUT_FILENAME empty_world.

Definition allow_cycle_next : result Z * world :=
  process_sources two_at_allow_env [sample_url] OUTPUT_FILENAME allow_cycle.2.

(** ** Lines and their terminators *)

(** A character that does not end a line. *)
Definition no_break : ascii → bool :=
  λ c, negb (Ascii.eqb c LF) && negb (Ascii.eqb c CR).

(** The text of some lines, each followed by the terminator. *)
Definition terminated (terminator : string) (lines : list string) : string :=
  foldr (λ line text, line +:+ terminator +:+ text) "" lines.

(** A domain that [normalize_domain] leaves as it is and that holds no line
    break. *)
Definition settled (domain : string) : Prop :=
  domain ≠ "" ∧ normalize_domain domain = domain ∧ all_chars no_break domain = true.

#[global] Instance settled_dec domain : Decision (settled domain).
Proof. unfold settled. apply _. Defined.

Ltac bind_step := unfold mbind at 1; unfold M_bind at 1.

(** * Part III: properties *)

(** ** The normalizer on sample lines *)

Example normalize_plain : normalize_domain "example.com" = "example.com".
Proof. reflexivity. Qed.

Example normalize_email : normalize_domain "USER@Example.COM" = "example.com".
Proof. reflexivity. Qed.

Example normalize_sub : normalize_domain "  sub.example.com  " = "example.com".
Proof. reflexivity. Qed.

Example normalize_comment : normalize_domain "# a comment" = "".
Proof. reflexivity. Qed.

Example normalize_trailing_comment : normalize_domain "example.com # why" = "example.com".
Proof. reflexivity. Qed.

Example normalize_only_at : normalize_domain "@" = "".
Proof. reflexivity. Qed.

Example normalize_only_dots : normalize_domain " .. " = "".
Proof. reflexivity. Qed.

Example normalize_legacy_line : normalize_domain ("Mail.Example.COM" +:+ String CR nl) = "example.com".
Proof. reflexivity. Qed.

Example replace_leftmost : Py.replace "## " "" "#### x## y" = "##xy".
Proof. reflexivity. Qed.

Example split_keeps_empty : Py.split "." "a..b." = ["a"; ""; "b"; ""].
Proof. reflexivity. Qed.

Example split1_first_only : Py.split1 "@" "a@b@c" = ["a"; "b@c"].
Proof. reflexivity. Qed.

Example readlines_universal :
  readlines ("a" +:+ String CR nl +:+ "b" +:+ String CR "c" +:+ nl +:+ "d")
  = ["a" +:+ nl; "b" +:+ nl; "c" +:+ nl; "d"].
Proof. reflexivity. Qed.

Example path_of_output :
  resolve_path (sample_env Eof Eof) OUTPUT_FILENAME = sample_path.
Proof. reflexivity. Qed.

Example sorted_by_code_point :
  sorted {["b.com"; "a.com"; "B.com"; "a.co"]} = ["B.com"; "a.co"; "a.com"; "b.com"].
Proof. by vm_compute. Qed.

Example spec_normalize_marker : Spec.normalize "## FREE@MAIL.example.CO.UK  " = "co.uk".
Proof. reflexivity. Qed.

(** ** Strings *)

Lemma append_cons x (a b : string) : String x a +:+ b = String x (a +:+ b).
Proof. done. Qed.

Lemma append_nil_l (b : string) : "" +:+ b = b.
Proof. done. Qed.

Lemma append_assoc (a b c : string) : (a +:+ b) +:+ c = a +:+ (b +:+ c).
Proof. induction a as [|x a IH]; [done|]. by rewrite !append_cons, IH. Qed.

Lemma readlines_cons_other c r :
  Ascii.eqb c LF = false → Ascii.eqb c CR = false →
  readlines (String c r) = match readlines r with
                           | [] => [String c ""]
                           | h :: t => String c h :: t
                           end.
Proof. intros H1 H2. simpl. by rewrite H1, H2. Qed.

Lemma readlines_LF r : readlines (String LF r) = nl :: readlines r.
Proof. done. Qed.

Lemma readlines_CR_LF r : readlines (String CR (String LF r)) = nl :: readlines r.
Proof. done. Qed.

Lemma readlines_CR_other c r :
  Ascii.eqb c LF = false →
  readlines (String CR (String c r)) = nl :: readlines (String c r).
Proof.
  intros H. change (readlines (String CR (String c r)))
    with (if Ascii.eqb c LF then nl :: readlines r else nl :: readlines (String c r)).
  by rewrite H.
Qed.

Lemma readlines_nl_nonempty r : readlines (r +:+ nl) ≠ [].
Proof.
  induction r as [|x r IHr]; [done|].
  rewrite append_cons.
  destruct (Ascii.eqb_spec x LF) as [->|Hlf]; [done|].
  destruct (Ascii.eqb_spec x CR) as [->|Hcr].
  - destruct (r +:+ nl) as [|a s]; [done|].
    destruct (Ascii.eqb_spec a LF) as [->|Ha]; [done|].
    rewrite readlines_CR_other; [done|]. by apply Ascii.eqb_neq.
  - rewrite readlines_cons_other by (by apply Ascii.eqb_neq).
    by destruct (readlines (r +:+ nl)).
Qed.

(** What follows a complete line is read on its own. *)
Lemma readlines_app_nl (s1 s2 : string) :
  readlines ((s1 +:+ nl) +:+ s2) = (readlines (s1 +:+ nl) ++ readlines s2)%list.
Proof.
  remember (String.length s1) as n eqn:Hn.
  revert s1 Hn. induction n as [n IH] using lt_wf_ind. intros s1 Hn.
  destruct s1 as [|c r]; [done|].
  rewrite !append_cons.
  destruct (Ascii.eqb_spec c LF) as [->|Hlf].
  { rewrite !readlines_LF. rewrite <- app_comm_cons. f_equal.
    apply (IH (String.length r)); simpl in *; lia. }
  destruct (Ascii.eqb_spec c CR) as [->|Hcr].
  { destruct r as [|c' r']; [done|]. rewrite !append_cons.
    destruct (Ascii.eqb_spec c' LF) as [->|Hlf'].
    - rewrite !readlines_CR_LF. rewrite <- app_comm_cons. f_equal.
      apply (IH (String.length r')); simpl in *; lia.
    - rewrite !readlines_CR_other by (by apply Ascii.eqb_neq).
      rewrite <- !append_cons. rewrite <- app_comm_cons. f_equal.
      apply (IH (String.length (String c' r'))); simpl in *; lia. }
  rewrite !readlines_cons_other by (by apply Ascii.eqb_neq).
  rewrite (IH (String.length r)) by (simpl in *; lia).
  pose proof (readlines_nl_nonempty r).
  by destruct (readlines (r +:+ nl)).
Qed.

(** *** Primitives of the code and of the specification *)

Lemma truthy_true s : Py.truthy s = true ↔ s ≠ "".
Proof. by destruct s. Qed.

Lemma truthy_false s : Py.truthy s = false ↔ s = "".
Proof. by destruct s. Qed.

Lemma prefix_cons a p x s :
  String.prefix (String a p) (String x s) = Ascii.eqb x a && String.prefix p s.
Proof.
  simpl. destruct (ascii_dec a x) as [->|Hne].
  - by rewrite Ascii.eqb_refl.
  - destruct (Ascii.eqb_spec x a); [congruence|done].
Qed.

Lemma prefix_marker a r :
  String.prefix "## " (String a r) =
  match r with
  | String b (String c r') => Ascii.eqb a "#" && Ascii.eqb b "#" && Ascii.eqb c " "
  | _ => false
  end.
Proof.
  rewrite prefix_cons. destruct r as [|b [|c r']].
  - by rewrite andb_false_r.
  - rewrite prefix_cons. simpl. by rewrite !andb_false_r.
  - rewrite !prefix_cons. replace (String.prefix "" r') with true by (by destruct r').
    by rewrite andb_true_r, !andb_assoc.
Qed.

(** [replace] with the marker and the empty string deletes the marker. *)
Lemma replace_marker s : Py.replace "## " "" s = Spec.delete_marker s.
Proof.
  unfold Py.replace.
  remember (String.length s) as n eqn:Hn.
  revert s Hn. induction n as [n IH] using lt_wf_ind. intros s Hn.
  destruct s as [|a r]; [done|].
  change (Py.replace_from "## " "" 0 (String a r))
    with (if String.prefix "## " (String a r)
          then "" +:+ Py.replace_from "## " "" 2 r
          else String a (Py.replace_from "## " "" 0 r)).
  rewrite prefix_marker.
  destruct r as [|b [|c r']].
  - done.
  - change (Spec.delete_marker (String a (String b "")))
      with (String a (Spec.delete_marker (String b ""))).
    f_equal. apply (IH 1); simpl in *; lia.
  - change (Spec.delete_marker (String a (String b (String c r'))))
      with (if Ascii.eqb a "#" && Ascii.eqb b "#" && Ascii.eqb c " "
            then Spec.delete_marker r'
            else String a (Spec.delete_marker (String b (String c r')))).
    destruct (Ascii.eqb a "#" && Ascii.eqb b "#" && Ascii.eqb c " ").
    + change (Py.replace_from "## " "" 2 (String b (String c r')))
        with (Py.replace_from "## " "" 0 r').
      rewrite append_nil_l. apply (IH (String.length r')); simpl in *; lia.
    + f_equal. apply (IH (String.length (String b (String c r')))); simpl in *; lia.
Qed.

Lemma rstrip_no_trailing_space s : ends_with_space (Py.rstrip s) = false.
Proof.
  induction s as [|c r IH]; [done|]. simpl.
  destruct (Py.isspace c) eqn:Hc; simpl.
  - destruct (Py.truthy (Py.rstrip r)) eqn:Hr; simpl; [|done]. by rewrite Hr.
  - destruct (Py.truthy (Py.rstrip r)) eqn:Hr; simpl; by rewrite ?Hr.
Qed.

Lemma strip_no_trailing_space s : ends_with_space (Py.strip s) = false.
Proof. apply rstrip_no_trailing_space. Qed.

Lemma delete_marker_empty s :
  Spec.delete_marker s = "" → s = "" ∨ ends_with_space s = true.
Proof.
  remember (String.length s) as n eqn:Hn.
  revert s Hn. induction n as [n IH] using lt_wf_ind. intros s Hn H.
  destruct s as [|a [|b [|c r']]]; [by left|done|done|].
  change (Spec.delete_marker (String a (String b (String c r'))))
    with (if Ascii.eqb a "#" && Ascii.eqb b "#" && Ascii.eqb c " "
          then Spec.delete_marker r'
          else String a (Spec.delete_marker (String b (String c r')))) in H.
  destruct (Ascii.eqb a "#" && Ascii.eqb b "#" && Ascii.eqb c " ") eqn:Hm; [|done].
  right. apply andb_prop in Hm as [_ Hc]. apply Ascii.eqb_eq in Hc. subst c.
  destruct (IH (String.length r')) with (s := r') as [->|Hr]; simpl in *; try lia; try done.
  destruct r'; [done|]. done.
Qed.

Lemma delete_marker_strip line :
  Py.strip line ≠ "" → Spec.delete_marker (Py.strip line) ≠ "".
Proof.
  intros Hne H. apply delete_marker_empty in H as [H|H]; [done|].
  by rewrite strip_no_trailing_space in H.
Qed.

Lemma contains_char c s : Py.contains (String c "") s = Spec.occurs c s.
Proof.
  induction s as [|x r IH]; [done|].
  change (Py.contains (String c "") (String x r))
    with (String.prefix (String c "") (String x r) || Py.contains (String c "") r).
  rewrite prefix_cons, IH.
  replace (String.prefix "" r) with true by (by destruct r).
  by rewrite andb_true_r.
Qed.

Lemma split1_nonempty c s : Py.split1 c s ≠ [].
Proof.
  destruct s as [|x r]; [done|]. simpl.
  destruct (Ascii.eqb x c); [done|]. by destruct (Py.split1 c r).
Qed.

Lemma split1_before c s : Py.item (Py.split1 c s) 0 = Spec.before c s.
Proof.
  induction s as [|x r IH]; [done|]. simpl.
  destruct (Ascii.eqb x c); [done|].
  pose proof (split1_nonempty c r).
  destruct (Py.split1 c r) as [|h t]; [done|].
  unfold Py.item in *. simpl in *. by f_equal.
Qed.

Lemma split1_after c s :
  Spec.occurs c s = true → Py.item (Py.split1 c s) 1 = Spec.after c s.
Proof.
  induction s as [|x r IH]; [done|]. simpl.
  destruct (Ascii.eqb x c); [done|]. simpl. intros H.
  pose proof (split1_nonempty c r).
  destruct (Py.split1 c r) as [|h t]; [done|].
  unfold Py.item in *. simpl in *. by apply IH.
Qed.

Lemma lower_empty s : Py.lower s = "" ↔ s = "".
Proof. by destruct s. Qed.

Lemma filter_truthy (l : list string) :
  filter (λ segment, Py.truthy segment = true) l = filter (λ segment, segment ≠ "") l.
Proof.
  apply list_filter_iff. intros s. apply truthy_true.
Qed.

Lemma last_two {A} (l : list A) :
  (2 < length l)%nat →
  ∃ x y z t, rev l = y :: x :: z :: t ∧ Py.last_n 2 l = [x; y].
Proof.
  intros Hlen. unfold Py.last_n.
  destruct (rev l) as [|y [|x [|z t]]] eqn:Hrev;
    apply (f_equal (@rev A)) in Hrev; rewrite rev_involutive in Hrev; subst l;
    simpl in Hlen; try lia.
  exists x, y, z, t. split; [done|].
  simpl. rewrite <- !app_assoc. simpl.
  change (rev t ++ [z; x; y])%list with (rev t ++ [z] ++ [x; y])%list.
  rewrite (app_assoc (rev t) [z] [x; y]).
  replace (length ((rev t ++ [z]) ++ [x; y]) - 2)%nat with (length (rev t ++ [z])).
  - by rewrite drop_app_length.
  - rewrite !length_app. simpl. lia.
Qed.

Lemma short_rev {A} (l : list A) :
  ¬ (2 < length l)%nat →
  match rev l with
  | _ :: _ :: _ :: _ => False
  | _ => True
  end.
Proof.
  intros Hlen. destruct (rev l) as [|y [|x [|z t]]] eqn:Hrev; try done.
  apply (f_equal (@length A)) in Hrev. rewrite length_rev in Hrev. simpl in Hrev. lia.
Qed.

Lemma join_two sep x y : Py.join sep [x; y] = x +:+ sep +:+ y.
Proof. done. Qed.

Lemma append_nonempty_r a b : b ≠ "" → a +:+ b ≠ "".
Proof. destruct a; [done|]. by rewrite append_cons. Qed.

(** ** The normalizer and the eight rules *)

(** The code computes what the eight rules compute. *)
Lemma normalize_domain_rules line : normalize_domain line = Spec.normalize line.
Proof.
  unfold normalize_domain, Spec.normalize, Spec.rule1.
  unfold Spec.stop_if_empty at 1.
  destruct (Py.truthy (Py.strip line)) eqn:H1; simpl; [|done].
  apply truthy_true in H1.
  rewrite replace_marker.
  unfold Spec.rule2, Spec.stop_if_empty at 1.
  pose proof (delete_marker_strip line H1) as H2.
  apply truthy_true in H2. rewrite H2. simpl.
  set (s2 := Spec.delete_marker (Py.strip line)) in *.
  assert (H3 : Py.startswith "#" s2 = match Spec.rule3 s2 with None => true | Some _ => false end).
  { unfold Py.startswith, Spec.rule3. destruct s2 as [|c r]; [done|].
    rewrite prefix_cons. replace (String.prefix "" r) with true by (by destruct r).
    rewrite andb_true_r. by destruct (Ascii.eqb c "#"). }
  rewrite H3.
  destruct (Spec.rule3 s2) as [s3|] eqn:Hr3; simpl; [|done].
  assert (s3 = s2) as ->.
  { unfold Spec.rule3 in Hr3. destruct s2 as [|c r]; [congruence|].
    destruct (Ascii.eqb c "#"); congruence. }
  rewrite contains_char, split1_before.
  unfold Spec.rule4, Spec.stop_if_empty at 1.
  set (s4 := if Spec.occurs "#" s2 then Py.strip (Spec.before "#" s2) else s2).
  destruct (Py.truthy s4) eqn:H4; simpl; [|done].
  rewrite contains_char.
  unfold Spec.rule5, Spec.stop_if_empty at 1.
  assert (H5 : (if Spec.occurs "@" s4 then Py.item (Py.split1 "@" s4) 1 else s4)
               = (if Spec.occurs "@" s4 then Spec.after "@" s4 else s4)).
  { destruct (Spec.occurs "@" s4) eqn:Hat; [|done]. by apply split1_after. }
  rewrite H5.
  set (s5 := if Spec.occurs "@" s4 then Spec.after "@" s4 else s4).
  rewrite filter_truthy.
  destruct (Py.truthy s5) eqn:H5'; simpl.
  2:{ apply truthy_false in H5'. by rewrite H5'. }
  unfold Spec.rule6, Spec.stop_if_empty at 1.
  set (s6 := Py.join "." (filter (λ segment, segment ≠ "") (Py.split "." s5))).
  destruct (Py.truthy s6) eqn:H6; simpl; [|done].
  unfold Spec.rule7, Spec.stop_if_empty at 1.
  destruct (Nat.ltb_spec 2 (length (Py.split "." s6))) as [Hlen|Hlen].
  - destruct (last_two _ Hlen) as (x & y & z & t & -> & ->).
    rewrite join_two.
    replace (Py.truthy (x +:+ "." +:+ y)) with true.
    2:{ symmetry. apply truthy_true. by apply append_nonempty_r. }
    simpl. unfold Spec.rule8, Spec.stop_if_empty.
    destruct (Py.truthy (Py.lower (x +:+ "." +:+ y))) eqn:H8; [done|].
    by apply truthy_false in H8.
  - assert (Hshort := short_rev (Py.split "." s6)).
    replace (match rev (Py.split "." s6) with
             | last :: before_last :: _ :: _ => Py.join "." [before_last; last]
             | _ => s6
             end) with s6.
    2:{ destruct (rev (Py.split "." s6)) as [|y [|x [|z t]]]; try done.
        exfalso. apply Hshort. lia. }
    rewrite H6. simpl. unfold Spec.rule8, Spec.stop_if_empty.
    destruct (Py.truthy (Py.lower s6)) eqn:H8; [done|].
    by apply truthy_false in H8.
Qed.

(** C1: for every line the normalizer returns what the eight rules of the
    specification give when they are applied in order and an empty result
    stops them; the marked line of the example gives co.uk. *)
Theorem normalize_domain_pipeline :
  (∀ line, normalize_domain line = Spec.normalize line)
  ∧ normalize_domain "## FREE@MAIL.example.CO.UK  " = "co.uk".
Proof. split; [apply normalize_domain_rules|reflexivity]. Qed.

(** ** What a normalized domain looks like *)

Lemma all_chars_app P a b :
  all_chars P (a +:+ b) = all_chars P a && all_chars P b.
Proof.
  induction a as [|x a IH]; [done|].
  rewrite append_cons. simpl. by rewrite IH, andb_assoc.
Qed.

Lemma occurs_all_chars c s : Spec.occurs c s = negb (all_chars (is_not c) s).
Proof.
  induction s as [|x r IH]; [done|]. simpl. rewrite IH. unfold is_not.
  by destruct (Ascii.eqb x c).
Qed.

Lemma all_chars_lstrip P s : all_chars P s = true → all_chars P (Py.lstrip s) = true.
Proof.
  induction s as [|x r IH]; [done|]. simpl.
  intros [Hx Hr]%andb_prop. destruct (Py.isspace x); [by apply IH|].
  simpl. by rewrite Hx, Hr.
Qed.

Lemma all_chars_rstrip P s : all_chars P s = true → all_chars P (Py.rstrip s) = true.
Proof.
  induction s as [|x r IH]; [done|]. simpl.
  intros [Hx Hr]%andb_prop.
  destruct (Py.isspace x && negb (Py.truthy (Py.rstrip r))); [done|].
  simpl. by rewrite Hx, IH.
Qed.

Lemma all_chars_strip P s : all_chars P s = true → all_chars P (Py.strip s) = true.
Proof. intros H. by apply all_chars_rstrip, all_chars_lstrip. Qed.

Lemma all_chars_before P c s :
  all_chars P s = true → all_chars P (Spec.before c s) = true.
Proof.
  induction s as [|x r IH]; [done|]. simpl.
  intros [Hx Hr]%andb_prop. destruct (Ascii.eqb x c); [done|].
  simpl. by rewrite Hx, IH.
Qed.

Lemma all_chars_after P c s :
  all_chars P s = true → all_chars P (Spec.after c s) = true.
Proof.
  induction s as [|x r IH]; [done|]. simpl.
  intros [Hx Hr]%andb_prop. destruct (Ascii.eqb x c); [done|]. by apply IH.
Qed.

Lemma before_avoids c s : all_chars (is_not c) (Spec.before c s) = true.
Proof.
  induction s as [|x r IH]; [done|]. simpl.
  destruct (Ascii.eqb x c) eqn:Hx; [done|]. simpl. unfold is_not at 1.
  by rewrite Hx, IH.
Qed.

Lemma all_chars_split P c s :
  all_chars P s = true → Forall (λ segment, all_chars P segment = true) (Py.split c s).
Proof.
  induction s as [|x r IH]; simpl.
  - intros _. by repeat constructor.
  - intros [Hx Hr]%andb_prop. specialize (IH Hr).
    destruct (Ascii.eqb x c); [by constructor|].
    destruct (Py.split c r) as [|h t]; [by repeat constructor; simpl; rewrite Hx|].
    apply Forall_cons in IH as [Hh Ht]. constructor; [|done].
    simpl. by rewrite Hx, Hh.
Qed.

Lemma all_chars_join P sep l :
  all_chars P sep = true →
  Forall (λ segment, all_chars P segment = true) l →
  all_chars P (Py.join sep l) = true.
Proof.
  intros Hsep. induction 1 as [|x l Hx Hl IH]; [done|].
  destruct l as [|y l']; [done|].
  change (Py.join sep (x :: y :: l')) with (x +:+ sep +:+ Py.join sep (y :: l')).
  by rewrite !all_chars_app, Hx, Hsep, IH.
Qed.

Lemma all_chars_lower P s :
  (∀ c, P c = true → P (Py.lower_char c) = true) →
  all_chars P s = true → all_chars P (Py.lower s) = true.
Proof.
  intros HP. induction s as [|x r IH]; [done|]. simpl.
  intros [Hx Hr]%andb_prop. by rewrite HP, IH.
Qed.

Lemma Forall_filter_keep {A} (P Q : A → Prop) `{∀ x, Decision (Q x)} (l : list A) :
  Forall P l → Forall P (filter Q l).
Proof.
  induction 1 as [|x l Hx Hl IH]; [done|].
  rewrite filter_cons. destruct (decide (Q x)); [by constructor|done].
Qed.

(** Rules 6 and 7 keep the characters within a set that holds the dot. *)
Lemma all_chars_labels P s5 s6 s7 :
  P "."%char = true →
  all_chars P s5 = true →
  Spec.rule6 s5 = Some s6 → Spec.rule7 s6 = Some s7 →
  all_chars P s7 = true.
Proof.
  intros Hdot H5 H6 H7.
  assert (Hs6 : all_chars P s6 = true).
  { unfold Spec.rule6, Spec.stop_if_empty in H6.
    destruct (Py.truthy _); [|done]. injection H6 as <-.
    apply all_chars_join; [by simpl; rewrite Hdot|].
    apply Forall_filter_keep. by apply all_chars_split. }
  unfold Spec.rule7, Spec.stop_if_empty in H7.
  destruct (Py.truthy _); [|done]. injection H7 as <-.
  pose proof (all_chars_split P "." s6 Hs6) as Hall.
  apply Forall_rev in Hall.
  destruct (rev (Py.split "." s6)) as [|y [|x [|z t]]]; try done.
  apply Forall_cons in Hall as [Hy Hall]. apply Forall_cons in Hall as [Hx _].
  rewrite !all_chars_app, Hx, Hy. simpl. by rewrite Hdot.
Qed.

Lemma stop_if_empty_Some s t : Spec.stop_if_empty s = Some t → t = s ∧ s ≠ "".
Proof.
  unfold Spec.stop_if_empty. destruct (Py.truthy s) eqn:H; [|done].
  intros [= <-]. split; [done|]. by apply truthy_true.
Qed.

Lemma uncommented_rules line :
  uncommented line =
  let s2 := Spec.delete_marker (Py.strip line) in
  if Spec.occurs "#" s2 then Py.strip (Spec.before "#" s2) else s2.
Proof. unfold uncommented. by rewrite replace_marker, contains_char, split1_before. Qed.

(** The stages a line with a non-empty normal form goes through. *)
Lemma normalize_domain_stages line :
  normalize_domain line ≠ "" →
  let s4 := uncommented line in
  let s5 := if Spec.occurs "@" s4 then Spec.after "@" s4 else s4 in
  ∃ s6 s7,
    all_chars (is_not "#") s4 = true
    ∧ Spec.rule6 s5 = Some s6 ∧ Spec.rule7 s6 = Some s7
    ∧ normalize_domain line = Py.lower s7.
Proof.
  rewrite normalize_domain_rules, uncommented_rules. unfold Spec.normalize.
  destruct (Spec.rule1 line) as [s1|] eqn:H1; simpl; [|done].
  destruct (Spec.rule2 s1) as [s2|] eqn:H2; simpl; [|done].
  destruct (Spec.rule3 s2) as [s3|] eqn:H3; simpl; [|done].
  destruct (Spec.rule4 s3) as [s4|] eqn:H4; simpl; [|done].
  destruct (Spec.rule5 s4) as [s5|] eqn:H5; simpl; [|done].
  destruct (Spec.rule6 s5) as [s6|] eqn:H6; simpl; [|done].
  destruct (Spec.rule7 s6) as [s7|] eqn:H7; simpl; [|done].
  destruct (Spec.rule8 s7) as [s8|] eqn:H8; simpl; [|done].
  intros _.
  apply stop_if_empty_Some in H1 as [-> _].
  apply stop_if_empty_Some in H2 as [-> _].
  assert (s3 = Spec.delete_marker (Py.strip line)) as ->.
  { unfold Spec.rule3 in H3. destruct (Spec.delete_marker (Py.strip line)) as [|c r];
      [congruence|]. destruct (Ascii.eqb c "#"); congruence. }
  apply stop_if_empty_Some in H4 as [-> _].
  apply stop_if_empty_Some in H5 as [-> _].
  apply stop_if_empty_Some in H8 as [-> _].
  exists s6, s7. split; [|done].
  destruct (Spec.occurs "#" (Spec.delete_marker (Py.strip line))) eqn:Hocc.
  - apply all_chars_strip, before_avoids.
  - rewrite occurs_all_chars in Hocc. by apply negb_false_iff in Hocc.
Qed.

Lemma count_zero_avoids c s : count_char c s = 0%nat → all_chars (is_not c) s = true.
Proof.
  induction s as [|x r IH]; [done|]. simpl. unfold is_not at 1.
  destruct (Ascii.eqb x c); [done|]. simpl. apply IH.
Qed.

Lemma after_avoids c s :
  (count_char c s ≤ 1)%nat → all_chars (is_not c) (Spec.after c s) = true.
Proof.
  induction s as [|x r IH]; [done|]. simpl.
  destruct (Ascii.eqb x c); simpl; intros H.
  - apply count_zero_avoids. lia.
  - by apply IH.
Qed.

Lemma lower_char_facts c :
  Py.lower_char (Py.lower_char c) = Py.lower_char c
  ∧ Py.isspace (Py.lower_char c) = Py.isspace c
  ∧ Ascii.eqb (Py.lower_char c) "#" = Ascii.eqb c "#"
  ∧ Ascii.eqb (Py.lower_char c) "@" = Ascii.eqb c "@"
  ∧ Ascii.eqb (Py.lower_char c) "." = Ascii.eqb c ".".
Proof. destruct c as [[] [] [] [] [] [] [] []]; by vm_compute. Qed.

Lemma lower_lower s : Py.lower (Py.lower s) = Py.lower s.
Proof.
  induction s as [|c r IH]; [done|]. simpl.
  by rewrite IH, (proj1 (lower_char_facts c)).
Qed.

Lemma all_chars_strip_id s : all_chars not_space s = true → Py.strip s = s.
Proof.
  intros H. unfold Py.strip.
  assert (Hl : Py.lstrip s = s).
  { destruct s as [|c r]; [done|]. simpl in *. apply andb_prop in H as [Hc _].
    unfold not_space in Hc. by destruct (Py.isspace c). }
  rewrite Hl. clear Hl. induction s as [|c r IH]; [done|].
  simpl in *. apply andb_prop in H as [Hc Hr].
  unfold not_space in Hc. destruct (Py.isspace c); [done|]. simpl. by rewrite IH.
Qed.

(** What the stages keep: a set of characters that holds the dot and is
    closed under lowercasing. *)
Lemma normalize_domain_keeps (P : ascii → bool) line :
  normalize_domain line ≠ "" →
  P "."%char = true →
  (∀ c, P c = true → P (Py.lower_char c) = true) →
  (let s4 := uncommented line in
   all_chars P (if Spec.occurs "@" s4 then Spec.after "@" s4 else s4) = true) →
  all_chars P (normalize_domain line) = true.
Proof.
  intros Hne Hdot Hlow H5.
  destruct (normalize_domain_stages line Hne) as (s6 & s7 & _ & H6 & H7 & ->).
  apply all_chars_lower; [done|].
  by apply (all_chars_labels P _ s6 s7 Hdot H5).
Qed.

(** A non-empty result of the normalizer is lowercase and holds no hash. *)
Lemma normalize_domain_lower_no_hash line :
  normalize_domain line ≠ "" →
  Py.lower (normalize_domain line) = normalize_domain line
  ∧ Py.contains "#" (normalize_domain line) = false.
Proof.
  intros Hne. split.
  - destruct (normalize_domain_stages line Hne) as (s6 & s7 & _ & _ & _ & ->).
    apply lower_lower.
  - rewrite contains_char, occurs_all_chars.
    rewrite (normalize_domain_keeps (is_not "#")); [done|done|done| |].
    + intros c. unfold is_not. by rewrite (proj1 (proj2 (proj2 (lower_char_facts c)))).
    + destruct (normalize_domain_stages line Hne) as (s6 & s7 & Hhash & _).
      cbv zeta in *. destruct (Spec.occurs "@" (uncommented line)); [|done].
      by apply all_chars_after.
Qed.

(** C2, as amended: a non-empty result of the normalizer is lowercase and
    holds no hash; it holds no at sign when what is left of the line after
    the comment is cut holds at most one, and no whitespace, so that neither
    end can be trimmed, when what is left of the line holds none. *)
Theorem normalize_domain_invariant line :
  normalize_domain line ≠ "" →
  let domain := normalize_domain line in
  Py.lower domain = domain
  ∧ Py.contains "#" domain = false
  ∧ ((count_char "@" (uncommented line) ≤ 1)%nat → Py.contains "@" domain = false)
  ∧ (all_chars not_space (uncommented line) = true →
     all_chars not_space domain = true ∧ Py.strip domain = domain).
Proof.
  intros Hne domain. subst domain.
  destruct (normalize_domain_lower_no_hash line Hne) as [Hlower Hhash].
  split; [exact Hlower|]. split; [exact Hhash|]. split.
  - intros Hcount. rewrite contains_char, occurs_all_chars.
    rewrite (normalize_domain_keeps (is_not "@")); [done|done|done| |].
    + intros c. unfold is_not.
      by rewrite (proj1 (proj2 (proj2 (proj2 (lower_char_facts c))))).
    + cbv zeta. destruct (Spec.occurs "@" (uncommented line)) eqn:Hocc.
      * by apply after_avoids.
      * rewrite occurs_all_chars in Hocc. by apply negb_false_iff in Hocc.
  - intros Hspace.
    assert (Hout : all_chars not_space (normalize_domain line) = true).
    { apply normalize_domain_keeps; [done|done| |].
      - intros c. unfold not_space. by rewrite (proj1 (proj2 (lower_char_facts c))).
      - cbv zeta. destruct (Spec.occurs "@" (uncommented line)); [|done].
        by apply all_chars_after. }
    split; [done|]. by apply all_chars_strip_id.
Qed.

Lemma normalize_domain_invariant_witness :
  Py.lower (normalize_domain "## FREE@MAIL.example.CO.UK  ")
  = normalize_domain "## FREE@MAIL.example.CO.UK  "
  ∧ Py.contains "#" (normalize_domain "## FREE@MAIL.example.CO.UK  ") = false
  ∧ Py.contains "@" (normalize_domain "## FREE@MAIL.example.CO.UK  ") = false
  ∧ Py.strip (normalize_domain "## FREE@MAIL.example.CO.UK  ")
    = normalize_domain "## FREE@MAIL.example.CO.UK  ".
Proof.
  destruct (normalize_domain_invariant "## FREE@MAIL.example.CO.UK  ")
    as (Hlower & Hhash & Hat & Hspace); [done|].
  split; [exact Hlower|]. split; [exact Hhash|].
  split; [apply Hat; vm_compute; lia|].
  apply Hspace. reflexivity.
Defined.

(** The result can begin with whitespace and can hold an at sign: the label
    after the at sign is not trimmed, and only the first at sign splits. *)
Lemma normalize_domain_keeps_space_and_at :
  normalize_domain "a@ b.com" = " b.com"
  ∧ normalize_domain "a@ b.com" ≠ ""
  ∧ Py.strip (normalize_domain "a@ b.com") ≠ normalize_domain "a@ b.com"
  ∧ normalize_domain "a@b@c.com" = "b@c.com"
  ∧ Py.contains "@" (normalize_domain "a@b@c.com") = true.
Proof. repeat split; by vm_compute. Qed.

(** ** Plain domains read back *)

Lemma split_free c s : all_chars (is_not c) s = true → Py.split c s = [s].
Proof.
  induction s as [|x r IH]; [done|]. simpl. unfold is_not at 1.
  intros [Hx Hr]%andb_prop. apply negb_true_iff in Hx. rewrite Hx, (IH Hr). done.
Qed.

Lemma split_app_sep c a b :
  all_chars (is_not c) a = true →
  Py.split c (a +:+ String c b) = a :: Py.split c b.
Proof.
  induction a as [|x r IH].
  - intros _. rewrite append_nil_l. simpl. by rewrite Ascii.eqb_refl.
  - simpl all_chars. unfold is_not at 1. intros [Hx Hr]%andb_prop.
    apply negb_true_iff in Hx. rewrite append_cons. simpl. by rewrite Hx, (IH Hr).
Qed.

Lemma split_join c l :
  l ≠ [] → Forall (λ segment, all_chars (is_not c) segment = true) l →
  Py.split c (Py.join (String c "") l) = l.
Proof.
  intros Hne Hall. induction Hall as [|x l Hx Hl IH]; [done|].
  destruct l as [|y l']; [by apply split_free|].
  change (Py.join (String c "") (x :: y :: l'))
    with (x +:+ String c (Py.join (String c "") (y :: l'))).
  rewrite split_app_sep by done. by rewrite IH.
Qed.

Lemma split_segments_free c s :
  Forall (λ segment, all_chars (is_not c) segment = true) (Py.split c s).
Proof.
  induction s as [|x r IH]; simpl; [by repeat constructor|].
  destruct (Ascii.eqb x c) eqn:Hx; [by constructor|].
  destruct (Py.split c r) as [|h t]; [|apply Forall_cons in IH as [Hh Ht]];
    constructor; try done; simpl; unfold is_not at 1; by rewrite Hx.
Qed.

Lemma Forall_filter_holds {A} (Q : A → Prop) `{∀ x, Decision (Q x)} (l : list A) :
  Forall Q (filter Q l).
Proof.
  induction l as [|x l IH]; [constructor|].
  rewrite filter_cons. destruct (decide (Q x)); [by constructor|done].
Qed.

Lemma lower_app a b : Py.lower (a +:+ b) = Py.lower a +:+ Py.lower b.
Proof.
  induction a as [|x a IH]; [done|].
  rewrite append_cons. simpl. by rewrite IH.
Qed.

Lemma lower_join sep l :
  Py.lower (Py.join sep l) = Py.join (Py.lower sep) (Py.lower <$> l).
Proof.
  induction l as [|x l IH]; [done|]. destruct l as [|y l']; [done|].
  change (Py.join sep (x :: y :: l')) with (x +:+ sep +:+ Py.join sep (y :: l')).
  rewrite !lower_app, IH. done.
Qed.

Lemma label_lower segment : label segment → label (Py.lower segment).
Proof.
  intros [Hne Hfree]. split.
  - by rewrite lower_empty.
  - apply all_chars_lower; [|done]. intros c. unfold is_not.
    by rewrite (proj2 (proj2 (proj2 (proj2 (lower_char_facts c))))).
Qed.

(** A non-empty result of the normalizer is one label, or two labels joined
    by a dot. *)
Lemma normalize_domain_labels line :
  normalize_domain line ≠ "" →
  ∃ labels, labels ≠ [] ∧ (length labels ≤ 2)%nat ∧ Forall label labels
            ∧ normalize_domain line = Py.join "." labels.
Proof.
  intros Hne.
  destruct (normalize_domain_stages line Hne) as (s6 & s7 & _ & H6 & H7 & ->).
  set (s5 := if Spec.occurs "@" _ then _ else _) in H6. clearbody s5.
  apply stop_if_empty_Some in H6 as [-> Hs6].
  set (L := filter (λ segment, segment ≠ "") (Py.split "." s5)) in *.
  assert (HL : Forall label L).
  { apply Forall_and. split; [apply Forall_filter_holds|].
    apply Forall_filter_keep, split_segments_free. }
  assert (HLne : L ≠ []) by (by intros HL0; rewrite HL0 in Hs6).
  apply stop_if_empty_Some in H7 as [-> _].
  rewrite split_join; [|done|by apply Forall_and in HL as [_ ?]].
  destruct (rev L) as [|y [|x [|z t]]] eqn:Hrev.
  - exists (Py.lower <$> L). rewrite lower_join.
    apply (f_equal (@length string)) in Hrev. rewrite length_rev in Hrev.
    by destruct L.
  - exists (Py.lower <$> L). rewrite lower_join.
    apply (f_equal (@length string)) in Hrev. rewrite length_rev in Hrev.
    split; [by destruct L|]. split; [rewrite length_fmap; simpl in Hrev; lia|].
    split; [|done]. apply Forall_fmap. eapply Forall_impl; [exact HL|].
    intros segment. apply label_lower.
  - exists (Py.lower <$> L). rewrite lower_join.
    apply (f_equal (@length string)) in Hrev. rewrite length_rev in Hrev.
    split; [by destruct L|]. split; [rewrite length_fmap; simpl in Hrev; lia|].
    split; [|done]. apply Forall_fmap. eapply Forall_impl; [exact HL|].
    intros segment. apply label_lower.
  - exists [Py.lower x; Py.lower y]. rewrite lower_join.
    apply Forall_rev in HL. rewrite Hrev in HL.
    apply Forall_cons in HL as [Hy HL]. apply Forall_cons in HL as [Hx _].
    split; [done|]. split; [simpl; lia|]. split; [|done].
    repeat constructor; by apply label_lower.
Qed.

Lemma rstrip_nl d : all_chars not_space d = true → Py.rstrip (d +:+ nl) = d.
Proof.
  induction d as [|x r IH]; [done|].
  simpl all_chars. unfold not_space at 1. intros [Hx Hr]%andb_prop.
  apply negb_true_iff in Hx. rewrite append_cons. simpl. by rewrite Hx, (IH Hr).
Qed.

Lemma strip_line d :
  all_chars not_space d = true → d ≠ "" → Py.strip (d +:+ nl) = d.
Proof.
  intros Hd Hne. unfold Py.strip.
  replace (Py.lstrip (d +:+ nl)) with (d +:+ nl); [by apply rstrip_nl|].
  destruct d as [|x r]; [done|]. rewrite append_cons. simpl in *.
  apply andb_prop in Hd as [Hx _]. unfold not_space in Hx.
  by destruct (Py.isspace x).
Qed.

Lemma delete_marker_plain d :
  all_chars not_space d = true → Spec.delete_marker d = d.
Proof.
  induction d as [|a r IH]; [done|]. intros [Ha Hr]%andb_prop.
  specialize (IH Hr).
  destruct r as [|b [|c r']]; [done|done|].
  change (Spec.delete_marker (String a (String b (String c r'))))
    with (if Ascii.eqb a "#" && Ascii.eqb b "#" && Ascii.eqb c " "
          then Spec.delete_marker r'
          else String a (Spec.delete_marker (String b (String c r')))).
  replace (Ascii.eqb c " ") with false; [by rewrite andb_false_r, IH|].
  simpl in Hr. apply andb_prop in Hr as [_ [Hc _]%andb_prop].
  unfold not_space in Hc. destruct (Ascii.eqb_spec c " ") as [->|]; done.
Qed.

Lemma readlines_plain d :
  all_chars not_space d = true → readlines (d +:+ nl) = [d +:+ nl].
Proof.
  induction d as [|x r IH]; [done|].
  simpl all_chars. unfold not_space at 1. intros [Hx Hr]%andb_prop.
  rewrite append_cons, readlines_cons_other, (IH Hr); [done| |].
  - destruct (Ascii.eqb_spec x LF) as [->|]; done.
  - destruct (Ascii.eqb_spec x CR) as [->|]; done.
Qed.

(** A plain result of the normalizer is normalized to itself. *)
Lemma normalize_domain_fixed line :
  let domain := normalize_domain line in
  domain ≠ "" → plain domain → normalize_domain (domain +:+ nl) = domain.
Proof.
  intros domain Hne [Hat Hspace].
  destruct (normalize_domain_labels line Hne) as (labels & Hlne & Hlen & Hlabels & Hjoin).
  destruct (normalize_domain_lower_no_hash line Hne) as [Hlower Hhash].
  fold domain in Hjoin, Hlower, Hhash.
  rewrite normalize_domain_rules. unfold Spec.normalize.
  unfold Spec.rule1. rewrite strip_line by done.
  unfold Spec.stop_if_empty at 1.
  replace (Py.truthy domain) with true by (symmetry; by apply truthy_true).
  simpl. unfold Spec.rule2. rewrite delete_marker_plain by done.
  unfold Spec.stop_if_empty at 1.
  replace (Py.truthy domain) with true by (symmetry; by apply truthy_true).
  simpl.
  rewrite contains_char in Hhash, Hat.
  assert (H3 : Spec.rule3 domain = Some domain).
  { unfold Spec.rule3. destruct domain as [|c r]; [done|].
    simpl in Hhash. by destruct (Ascii.eqb c "#"). }
  rewrite H3. simpl. unfold Spec.rule4. rewrite Hhash.
  unfold Spec.stop_if_empty at 1.
  replace (Py.truthy domain) with true by (symmetry; by apply truthy_true).
  simpl. unfold Spec.rule5. rewrite Hat.
  unfold Spec.stop_if_empty at 1.
  replace (Py.truthy domain) with true by (symmetry; by apply truthy_true).
  simpl. unfold Spec.rule6.
  assert (Hsplit : Py.split "." domain = labels).
  { rewrite Hjoin. apply split_join; [done|].
    eapply Forall_impl; [exact Hlabels|]. by intros s [_ ?]. }
  rewrite Hsplit.
  assert (Hfilter : filter (λ segment, segment ≠ "") labels = labels).
  { clear -Hlabels. induction Hlabels as [|x l [Hx _] Hl IH]; [done|].
    rewrite filter_cons, decide_True by done. by rewrite IH. }
  rewrite Hfilter, <- Hjoin.
  unfold Spec.stop_if_empty at 1.
  replace (Py.truthy domain) with true by (symmetry; by apply truthy_true).
  simpl. unfold Spec.rule7. rewrite Hsplit.
  replace (match rev labels with
           | last :: before_last :: _ :: _ => Py.join "." [before_last; last]
           | _ => domain
           end) with domain.
  2:{ destruct (rev labels) as [|y [|x [|z t]]] eqn:Hrev; try done.
      apply (f_equal (@length string)) in Hrev. rewrite length_rev in Hrev.
      simpl in Hrev. lia. }
  unfold Spec.stop_if_empty at 1.
  replace (Py.truthy domain) with true by (symmetry; by apply truthy_true).
  simpl. unfold Spec.rule8. rewrite Hlower.
  unfold Spec.stop_if_empty.
  by replace (Py.truthy domain) with true by (symmetry; by apply truthy_true).
Qed.

(** A plain result of the normalizer reads back. *)
Lemma plain_reads_back line :
  let domain := normalize_domain line in
  domain ≠ "" → plain domain → reads_back domain.
Proof.
  intros domain Hne Hplain. unfold reads_back, domains_in.
  pose proof (normalize_domain_fixed line Hne Hplain) as Hfix.
  cbv zeta in Hfix. fold domain in Hfix.
  rewrite readlines_plain by apply Hplain. cbn [foldl]. rewrite Hfix.
  replace (Py.truthy domain) with true by (symmetry; by apply truthy_true).
  by rewrite union_empty_l_L.
Qed.

(** ** The allowlist filter *)

Lemma nonempty_set_true (X : gset string) : nonempty_set X = true ↔ X ≠ ∅.
Proof. unfold nonempty_set. apply bool_decide_eq_true. Qed.

Lemma nonempty_set_false (X : gset string) : nonempty_set X = false ↔ X = ∅.
Proof.
  unfold nonempty_set. rewrite bool_decide_eq_false.
  split; [apply dec_stable | intros -> H; by apply H].
Qed.

Lemma size_split (X Y : gset string) :
  size X = (size (X ∖ Y) + size (X ∩ Y))%nat.
Proof.
  rewrite <- size_union by set_solver.
  f_equal. apply set_eq. intros x.
  destruct (decide (x ∈ Y)); set_solver.
Qed.

Lemma apply_allowlist_fst candidates allow :
  (apply_allowlist candidates allow).1 = candidates ∖ allow.
Proof.
  unfold apply_allowlist.
  destruct (nonempty_set candidates) eqn:Hc; simpl.
  - destruct (nonempty_set allow) eqn:Ha; simpl; [done|].
    apply nonempty_set_false in Ha. subst allow. by rewrite difference_empty_L.
  - apply nonempty_set_false in Hc. subst candidates. set_solver.
Qed.

Lemma apply_allowlist_snd candidates allow :
  (apply_allowlist candidates allow).2 = Z.of_nat (size (candidates ∩ allow)).
Proof.
  unfold apply_allowlist.
  destruct (nonempty_set candidates) eqn:Hc; simpl.
  - destruct (nonempty_set allow) eqn:Ha; simpl.
    + rewrite (size_split candidates allow). lia.
    + apply nonempty_set_false in Ha. subst allow.
      by rewrite intersection_empty_r_L, size_empty.
  - apply nonempty_set_false in Hc. subst candidates.
    by replace (∅ ∩ allow) with (∅ : gset string) by set_solver.
Qed.

Lemma apply_allowlist_snd_zero candidates allow :
  (apply_allowlist candidates allow).2 = 0%Z ↔ candidates ∩ allow = ∅.
Proof.
  rewrite apply_allowlist_snd. split.
  - intros H. apply leibniz_equiv, size_empty_inv. lia.
  - intros ->. by rewrite size_empty.
Qed.

(** C5: with an empty candidate set or an empty allowlist the candidates come
    back unchanged with count 0; otherwise the result is the difference and
    the count is the drop in size. *)
Theorem apply_allowlist_contract (candidates allow : gset string) :
  (candidates = ∅ ∨ allow = ∅ →
     apply_allowlist candidates allow = (candidates, 0%Z))
  ∧ (candidates ≠ ∅ ∧ allow ≠ ∅ →
     apply_allowlist candidates allow
     = (candidates ∖ allow,
        (Z.of_nat (size candidates) - Z.of_nat (size (candidates ∖ allow)))%Z))
  ∧ apply_allowlist candidates ∅ = (candidates, 0%Z)
  ∧ apply_allowlist ∅ allow = (∅, 0%Z).
Proof.
  assert (Hfast : candidates = ∅ ∨ allow = ∅ →
                  apply_allowlist candidates allow = (candidates, 0%Z)).
  { intros H. unfold apply_allowlist.
    destruct (nonempty_set candidates) eqn:Hc; [|done].
    destruct (nonempty_set allow) eqn:Ha; [|done].
    apply nonempty_set_true in Hc, Ha. by destruct H. }
  split; [exact Hfast|]. split.
  - intros [Hc Ha]. unfold apply_allowlist.
    apply nonempty_set_true in Hc, Ha. by rewrite Hc, Ha.
  - split; unfold apply_allowlist.
    + replace (nonempty_set ∅) with false by done. by rewrite orb_true_r.
    + by replace (nonempty_set ∅) with false by done.
Qed.

Lemma apply_allowlist_contract_witness :
  apply_allowlist {["a.com"]} ∅ = ({["a.com"]}, 0%Z)
  ∧ apply_allowlist ({["a.com"]} ∪ {["b.com"]}) {["a.com"]}
    = (({["a.com"]} ∪ {["b.com"]}) ∖ {["a.com"]},
       (Z.of_nat (size ({["a.com"]} ∪ {["b.com"]} : gset string))
        - Z.of_nat (size (({["a.com"]} ∪ {["b.com"]}) ∖ {["a.com"]} : gset string)))%Z).
Proof.
  split.
  - apply (proj1 (apply_allowlist_contract {["a.com"]} ∅)). by right.
  - apply (proj1 (proj2 (apply_allowlist_contract ({["a.com"]} ∪ {["b.com"]}) {["a.com"]}))).
    split; by vm_compute.
Defined.

(** C10: the filter with its fast path computes the same pair as the plain
    difference with the size of the intersection as the count. *)
Theorem apply_allowlist_refines_uniform (candidates allow : gset string) :
  apply_allowlist candidates allow = apply_allowlist_uniform candidates allow.
Proof.
  unfold apply_allowlist_uniform.
  rewrite <- apply_allowlist_fst, <- apply_allowlist_snd.
  by destruct (apply_allowlist candidates allow).
Qed.

(** ** Runs of the monadic operations *)

Lemma emit_nil w : emit [] w = w.
Proof. destruct w. unfold emit. simpl. by rewrite app_nil_r. Qed.

Lemma emit_emit e1 e2 w : emit e2 (emit e1 w) = emit (e1 ++ e2)%list w.
Proof. unfold emit. simpl. by rewrite app_assoc. Qed.

Lemma load_existing_domains_run path w :
  load_existing_domains path w = (Returned (on_disk w path), w).
Proof.
  unfold on_disk, load_existing_domains, mbind, M_bind, read_file.
  by destruct (files w !! path).
Qed.

Section Runs.

Variable env : environment.

(** A fetch only prints: it leaves the files as they are, and what it
    returns does not depend on the world. *)
Lemma fetch_domains_from_url_run url :
  ∃ r entries, ∀ w, fetch_domains_from_url env url w = (r, emit entries w).
Proof.
  unfold fetch_domains_from_url.
  destruct (read_response (urlopen env url) ∅) as [domains [exc|]].
  - destruct (caught exc).
    + exists (Returned domains), [(WARN, UnableToLoad url exc)]. done.
    + exists (Raised exc), []. intros w. by rewrite emit_nil.
  - exists (Returned domains), []. intros w. by rewrite emit_nil.
Qed.

Lemma aggregate_run urls : ∀ aggregated,
  ∃ r entries, ∀ w, aggregate env aggregated urls w = (r, emit entries w).
Proof.
  induction urls as [|url rest IH]; intros aggregated; simpl.
  - exists (Returned aggregated), []. intros w. by rewrite emit_nil.
  - destruct (fetch_domains_from_url_run url) as (r & e1 & Hf).
    destruct r as [domains|exc].
    + destruct (IH (aggregated ∪ domains)) as (r2 & e2 & Ha).
      exists r2, (e1 ++ e2)%list. intros w.
      unfold mbind, M_bind. rewrite Hf, Ha. by rewrite emit_emit.
    + exists (Raised exc), e1. intros w. unfold mbind, M_bind. by rewrite Hf.
Qed.

Lemma yields_run {A} (m : M A) (a : A) :
  (∃ r entries, ∀ w, m w = (r, emit entries w)) → yields m a →
  ∃ entries, ∀ w, m w = (Returned a, emit entries w).
Proof.
  intros (r & entries & Hm) Hy. exists entries. intros w.
  specialize (Hy w). rewrite Hm in *. simpl in Hy. by subst r.
Qed.

Lemma log_run msg lvl w : log msg lvl w = (Returned tt, emit [(lvl, msg)] w).
Proof. done. Qed.

Lemma when_log_run b msg lvl :
  ∃ entries, ∀ w, when b (log msg lvl) w = (Returned tt, emit entries w).
Proof.
  destruct b; simpl.
  - exists [(lvl, msg)]. done.
  - exists []. intros w. by rewrite emit_nil.
Qed.

Lemma write_domains_run domains path w :
  write_domains domains path w = (Returned tt, written path domains w).
Proof. done. Qed.

(** One cycle, from the sets its fetches yield. *)
Lemma process_sources_run urls output_filename w allow fetched :
  yields (fetch_domains_from_url env ALLOWLIST_URL) allow →
  yields (fetch_multiple_sources env urls) fetched →
  let path := resolve_path env output_filename in
  let persisted := on_disk w path in
  let sanitized := (apply_allowlist persisted allow).1 in
  let removed := (apply_allowlist persisted allow).2 in
  let filtered := (apply_allowlist fetched allow).1 in
  ∃ e1 e2,
    process_sources env urls output_filename w =
    if decide (filtered = ∅ ∧ removed = 0%Z)
    then (Returned 0%Z, emit e1 w)
    else (Returned (Z.of_nat (size (filtered ∖ sanitized))),
          if decide (sanitized ∪ filtered ≠ persisted)
          then emit e2 (written path (sanitized ∪ filtered) (emit e1 w))
          else emit e1 w).
Proof.
  intros Hallow Hfetched path persisted sanitized removed filtered.
  destruct (yields_run _ _ (fetch_domains_from_url_run ALLOWLIST_URL) Hallow)
    as (ea & Ha).
  destruct (yields_run _ _ (aggregate_run urls ∅) Hfetched) as (ef & Hf).
  unfold process_sources.
  bind_step. rewrite load_existing_domains_run.
  fold path. fold persisted.
  change (Py.truthy ALLOWLIST_URL) with true. cbv iota.
  bind_step. rewrite Ha. simpl andb.
  destruct (when_log_run (negb (nonempty_set allow)) AllowlistEmpty WARN) as (e_a & He_a).
  bind_step. rewrite He_a, emit_emit.
  subst sanitized removed filtered.
  destruct (apply_allowlist persisted allow) as [sanitized removed].
  destruct (when_log_run (negb (removed =? 0)%Z) (RemovedExisting removed) INFO)
    as (e_r & He_r).
  bind_step. rewrite He_r, emit_emit.
  bind_step. unfold fetch_multiple_sources. rewrite Hf, emit_emit.
  destruct (apply_allowlist fetched allow) as [filtered skipped].
  destruct (when_log_run (negb (skipped =? 0)%Z) (SkippedAllowlisted skipped) INFO)
    as (e_s & He_s).
  bind_step. rewrite He_s, emit_emit. simpl.
  assert (Hrest : ∃ e1 e2,
    ((if bool_decide (sanitized ∪ filtered ≠ persisted)
      then write_domains (sanitized ∪ filtered) path
           ≫= (λ _ : (),
                 if nonempty_set (filtered ∖ sanitized)
                 then log (AddedNew (Z.of_nat (size (filtered ∖ sanitized)))) INFO
                 else when (negb (removed =? 0)%Z) (log OutputRefreshed INFO))
      else log NoNewDomains INFO)
     ≫= (λ _ : (), mret (Z.of_nat (size (filtered ∖ sanitized)))))
      (emit ((((ea ++ e_a) ++ e_r) ++ ef) ++ e_s)%list w)
    = (Returned (Z.of_nat (size (filtered ∖ sanitized))),
       if decide (sanitized ∪ filtered ≠ persisted)
       then emit e2 (written path (sanitized ∪ filtered) (emit e1 w))
       else emit e1 w)).
  { destruct (decide (sanitized ∪ filtered ≠ persisted)) as [Hne|Heq];
      case_bool_decide; try done.
    - exists ((((ea ++ e_a) ++ e_r) ++ ef) ++ e_s)%list.
      bind_step. bind_step. rewrite write_domains_run.
      destruct (nonempty_set (filtered ∖ sanitized)).
      + eexists. by rewrite log_run.
      + destruct (when_log_run (negb (removed =? 0)%Z) OutputRefreshed INFO)
          as (e_o & He_o).
        exists e_o. by rewrite He_o.
    - eexists _, []. bind_step. by rewrite log_run, emit_emit. }
  destruct (decide (filtered = ∅ ∧ removed = 0%Z)) as [[Hfil Hrem]|Hguard].
  - apply nonempty_set_false in Hfil. rewrite Hfil. subst removed. simpl.
    eexists _, []. bind_step. by rewrite log_run, emit_emit.
  - replace (negb (nonempty_set filtered) && (removed =? 0)%Z) with false; [done|].
    symmetry. apply andb_false_iff.
    destruct (nonempty_set filtered) eqn:Hfil; [by left|right].
    apply nonempty_set_false in Hfil. apply Z.eqb_neq. intros ?. by apply Hguard.
Qed.

End Runs.

(** ** What is on disk *)

Lemma on_disk_lookup w path :
  on_disk w path = match files w !! path with
                   | Some content => domains_in content
                   | None => ∅
                   end.
Proof.
  unfold on_disk, load_existing_domains, mbind, M_bind, read_file.
  by destruct (files w !! path).
Qed.

Lemma on_disk_emit entries w path : on_disk (emit entries w) path = on_disk w path.
Proof. by rewrite !on_disk_lookup. Qed.

Lemma on_disk_files w w' path : files w' = files w → on_disk w' path = on_disk w path.
Proof. intros H. by rewrite !on_disk_lookup, H. Qed.

Lemma on_disk_written path domains w :
  on_disk (written path domains w) path = domains_in (render (sorted domains)).
Proof. rewrite on_disk_lookup. simpl. by rewrite lookup_insert_eq. Qed.

Lemma on_disk_emit_written e2 path domains w :
  on_disk (emit e2 (written path domains w)) path = domains_in (render (sorted domains)).
Proof. by rewrite on_disk_emit, on_disk_written. Qed.

(** ** Fetching one source *)

Lemma normalized_cons line lines :
  normalized (line :: lines)
  = (if Py.truthy (normalize_domain line) then {[normalize_domain line]} else ∅)
    ∪ normalized lines.
Proof.
  unfold normalized. rewrite fmap_cons, filter_cons.
  destruct (Py.truthy (normalize_domain line)) eqn:Ht.
  - rewrite decide_True by done. done.
  - rewrite decide_False by done. set_solver.
Qed.

Lemma read_response_spec response : ∀ domains,
  read_response response domains
  = (domains ∪ normalized (delivered response), ending response).
Proof.
  induction response as [|raw_line rest IH|exc]; intros domains; simpl.
  - f_equal. unfold normalized. set_solver.
  - rewrite IH, normalized_cons. f_equal.
    destruct (Py.truthy (normalize_domain raw_line)); set_solver.
  - f_equal. unfold normalized. set_solver.
Qed.

Lemma fetch_domains_from_url_spec env url w :
  fetch_domains_from_url env url w =
  let response := urlopen env url in
  match ending response with
  | None => (Returned (normalized (delivered response)), w)
  | Some exc =>
      if caught exc
      then (Returned (normalized (delivered response)),
            emit [(WARN, UnableToLoad url exc)] w)
      else (Raised exc, w)
  end.
Proof.
  unfold fetch_domains_from_url. rewrite read_response_spec.
  rewrite union_empty_l_L. simpl.
  destruct (ending (urlopen env url)) as [exc|]; [|done].
  by destruct (caught exc).
Qed.

Lemma aggregate_spec env urls : ∀ aggregated w,
  Forall (λ url, ∀ exc, ending (urlopen env url) = Some exc → caught exc = true) urls →
  ∃ entries, aggregate env aggregated urls w
             = (Returned (aggregated ∪ delivered_by env urls), emit entries w).
Proof.
  induction urls as [|url rest IH]; intros aggregated w Hall.
  - exists []. rewrite emit_nil. simpl. unfold delivered_by. simpl.
    by rewrite union_empty_r_L.
  - apply Forall_cons in Hall as [Hurl Hrest].
    simpl. bind_step. rewrite fetch_domains_from_url_spec. simpl.
    destruct (ending (urlopen env url)) as [exc|] eqn:Hend.
    + rewrite (Hurl exc) by done.
      destruct (IH (aggregated ∪ normalized (delivered (urlopen env url)))
                   (emit [(WARN, UnableToLoad url exc)] w) Hrest) as (entries & ->).
      eexists. rewrite emit_emit. f_equal. f_equal.
      unfold delivered_by. rewrite fmap_cons. simpl. set_solver.
    + destruct (IH (aggregated ∪ normalized (delivered (urlopen env url))) w Hrest)
        as (entries & ->).
      eexists. f_equal. f_equal.
      unfold delivered_by. rewrite fmap_cons. simpl. set_solver.
Qed.

(** C9, as amended: a fetch that ends with HTTPError, URLError or OSError
    prints a warning and returns, without raising, the domains of the lines
    delivered before the failure, which is the empty set when the opening
    itself fails; a fetch that ends normally returns the non-empty
    normalized forms of all its lines and prints nothing; when every
    failure among the sources is of those classes, the aggregate returns
    the union of what the sources delivered; an exception of another class
    is raised again. *)
Theorem fetch_failure_isolated env url w :
  (∀ exc, ending (urlopen env url) = Some exc → caught exc = true →
     fetch_domains_from_url env url w
     = (Returned (normalized (delivered (urlopen env url))),
        emit [(WARN, UnableToLoad url exc)] w))
  ∧ (∀ exc, urlopen env url = Broken exc → caught exc = true →
       fetch_domains_from_url env url w
       = (Returned ∅, emit [(WARN, UnableToLoad url exc)] w))
  ∧ (ending (urlopen env url) = None →
       fetch_domains_from_url env url w
       = (Returned (normalized (delivered (urlopen env url))), w))
  ∧ (∀ urls,
       Forall (λ url, ∀ exc, ending (urlopen env url) = Some exc → caught exc = true) urls →
       ∃ entries, fetch_multiple_sources env urls w
                  = (Returned (delivered_by env urls), emit entries w))
  ∧ (∀ exc, ending (urlopen env url) = Some exc → caught exc = false →
       fetch_domains_from_url env url w = (Raised exc, w)).
Proof.
  split; [|split; [|split; [|split]]].
  - intros exc Hend Hc. rewrite fetch_domains_from_url_spec. simpl.
    by rewrite Hend, Hc.
  - intros exc Hopen Hc. rewrite fetch_domains_from_url_spec. simpl.
    by rewrite Hopen; simpl; rewrite Hc.
  - intros Hend. rewrite fetch_domains_from_url_spec. simpl. by rewrite Hend.
  - intros urls Hall. unfold fetch_multiple_sources.
    destruct (aggregate_spec env urls ∅ w Hall) as (entries & ->).
    exists entries. by rewrite union_empty_l_L.
  - intros exc Hend Hc. rewrite fetch_domains_from_url_spec. simpl.
    by rewrite Hend, Hc.
Qed.

Lemma fetch_failure_isolated_witness :
  fetch_domains_from_url broken_env sample_url empty_world
  = (Returned {["a.com"]}, emit [(WARN, UnableToLoad sample_url OSError)] empty_world)
  ∧ fetch_domains_from_url outage_env sample_url empty_world
    = (Returned ∅, emit [(WARN, UnableToLoad sample_url OSError)] empty_world)
  ∧ fetch_domains_from_url merge_env sample_url empty_world
    = (Returned {["b.com"; "c.com"]}, empty_world)
  ∧ ∃ entries, fetch_multiple_sources broken_env [sample_url; ALLOWLIST_URL] empty_world
               = (Returned {["a.com"]}, emit entries empty_world).
Proof.
  split; [|split; [|split]].
  - apply (proj1 (fetch_failure_isolated broken_env sample_url empty_world) OSError);
      reflexivity.
  - apply (proj1 (proj2 (fetch_failure_isolated outage_env sample_url empty_world)) OSError);
      reflexivity.
  - apply (proj1 (proj2 (proj2 (fetch_failure_isolated merge_env sample_url empty_world)))).
    reflexivity.
  - apply (proj1 (proj2 (proj2 (proj2
             (fetch_failure_isolated broken_env sample_url empty_world))))
             [sample_url; ALLOWLIST_URL]).
    repeat constructor; intros exc [= <-]; reflexivity.
Defined.

(** A failure while the body is read leaves the domains gathered so far in
    the result: the fetch ends with OSError after one line, and returns that
    line's domain, not the empty set. *)
Lemma fetch_failure_partial :
  ending (urlopen broken_env sample_url) = Some OSError
  ∧ caught OSError = true
  ∧ (fetch_domains_from_url broken_env sample_url empty_world).1 = Returned {["a.com"]}
  ∧ (fetch_domains_from_url broken_env sample_url empty_world).1 ≠ Returned ∅.
Proof. repeat split; try by vm_compute. Qed.

(** ** Reading back what was written *)

Lemma gather_union lines : ∀ acc,
  foldl add_line acc lines = acc ∪ foldl add_line ∅ lines.
Proof.
  induction lines as [|line lines IH]; intros acc; simpl.
  - set_solver.
  - rewrite (IH (add_line acc line)), (IH (add_line ∅ line)).
    unfold add_line. destruct (Py.truthy (normalize_domain line)); set_solver.
Qed.

Lemma domains_in_app_nl s1 s2 :
  domains_in ((s1 +:+ nl) +:+ s2) = domains_in (s1 +:+ nl) ∪ domains_in s2.
Proof.
  unfold domains_in. fold add_line.
  rewrite readlines_app_nl, foldl_app. apply gather_union.
Qed.

Lemma domains_in_render (l : list string) :
  Forall reads_back l → domains_in (render l) = list_to_set l.
Proof.
  induction 1 as [|d l Hd Hl IH]; [done|].
  change (render (d :: l)) with (d +:+ (nl +:+ render l)).
  rewrite <- append_assoc, domains_in_app_nl, IH. by rewrite Hd.
Qed.

Lemma domains_in_render_sorted (X : gset string) :
  set_Forall reads_back X → domains_in (render (sorted X)) = X.
Proof.
  intros HX. rewrite domains_in_render.
  - unfold sorted. rewrite (list_to_set_perm_L _ _ (merge_sort_Permutation _ _)).
    apply list_to_set_elements_L.
  - apply Forall_forall. intros d Hd. apply HX.
    unfold sorted in Hd. rewrite merge_sort_Permutation in Hd.
    by apply elem_of_elements.
Qed.

Lemma gather_normal_form lines : ∀ acc,
  set_Forall normal_form acc → set_Forall normal_form (foldl add_line acc lines).
Proof.
  induction lines as [|line lines IH]; intros acc Hacc; [done|].
  simpl. apply IH. unfold add_line.
  destruct (Py.truthy (normalize_domain line)) eqn:Ht; [|done].
  apply set_Forall_union; [done|]. apply set_Forall_singleton.
  split; [by apply truthy_true|by exists line].
Qed.

Lemma on_disk_normal_form w path : set_Forall normal_form (on_disk w path).
Proof.
  rewrite on_disk_lookup. destruct (files w !! path) as [content|].
  - unfold domains_in. fold add_line. apply gather_normal_form, set_Forall_empty.
  - apply set_Forall_empty.
Qed.

Lemma normalized_normal_form lines : set_Forall normal_form (normalized lines).
Proof.
  intros d Hd. unfold normalized in Hd.
  apply elem_of_list_to_set, list_elem_of_filter in Hd as [Ht Hd].
  apply list_elem_of_fmap in Hd as (line & -> & _).
  split; [by apply truthy_true|by exists line].
Qed.

Lemma aggregate_normal_form env urls : ∀ aggregated w fetched w',
  set_Forall normal_form aggregated →
  aggregate env aggregated urls w = (Returned fetched, w') →
  set_Forall normal_form fetched.
Proof.
  induction urls as [|url rest IH]; intros aggregated w fetched w' Hacc Hrun.
  - simpl in Hrun. by injection Hrun as <- _.
  - simpl in Hrun. unfold mbind, M_bind in Hrun.
    rewrite fetch_domains_from_url_spec in Hrun. simpl in Hrun.
    destruct (ending (urlopen env url)) as [exc|].
    + destruct (caught exc); [|done].
      eapply IH; [|exact Hrun].
      apply set_Forall_union; [done|apply normalized_normal_form].
    + eapply IH; [|exact Hrun].
      apply set_Forall_union; [done|apply normalized_normal_form].
Qed.

Lemma fetched_normal_form env urls fetched :
  yields (fetch_multiple_sources env urls) fetched → set_Forall normal_form fetched.
Proof.
  intros Hy. specialize (Hy empty_world). unfold fetch_multiple_sources in Hy.
  destruct (aggregate env ∅ urls empty_world) as [r w'] eqn:Hrun.
  simpl in Hy. subst r.
  eapply aggregate_normal_form; [|exact Hrun]. apply set_Forall_empty.
Qed.

Lemma plain_final_reads_back env urls w path allow fetched :
  yields (fetch_multiple_sources env urls) fetched →
  let final := (apply_allowlist (on_disk w path) allow).1
               ∪ (apply_allowlist fetched allow).1 in
  set_Forall plain final → set_Forall reads_back final.
Proof.
  intros Hf final Hplain d Hd.
  assert (Hnf : normal_form d).
  { subst final. rewrite !apply_allowlist_fst in Hd.
    apply elem_of_union in Hd as [Hd|Hd]; apply elem_of_difference in Hd as [Hd _].
    - by apply (on_disk_normal_form w path).
    - by apply (fetched_normal_form env urls fetched Hf). }
  destruct Hnf as [Hne [line ->]].
  apply plain_reads_back; [done|]. by apply Hplain.
Qed.

(** ** The cycle *)

(** C4: a cycle whose filtered fetched set is empty and that removed nothing
    from the persisted set returns 0 and leaves every file as it was. *)
Theorem outage_guard_no_write env urls output_filename w allow fetched :
  yields (fetch_domains_from_url env ALLOWLIST_URL) allow →
  yields (fetch_multiple_sources env urls) fetched →
  (apply_allowlist fetched allow).1 = ∅ →
  (apply_allowlist (on_disk w (resolve_path env output_filename)) allow).2 = 0%Z →
  ∃ w', process_sources env urls output_filename w = (Returned 0%Z, w')
        ∧ files w' = files w.
Proof.
  intros Ha Hf Hfil Hrem.
  destruct (process_sources_run env urls output_filename w allow fetched Ha Hf)
    as (e1 & e2 & Hrun).
  rewrite decide_True in Hrun by done.
  exists (emit e1 w). done.
Qed.

Lemma outage_guard_no_write_witness :
  ∃ w', process_sources outage_env [sample_url] OUTPUT_FILENAME
          (sample_world ("a.com" +:+ nl))
        = (Returned 0%Z, w')
        ∧ files w' = files (sample_world ("a.com" +:+ nl)).
Proof.
  apply (outage_guard_no_write outage_env [sample_url] OUTPUT_FILENAME
           (sample_world ("a.com" +:+ nl)) ∅ ∅).
  - intros w. reflexivity.
  - intros w. reflexivity.
  - reflexivity.
  - reflexivity.
Defined.

(** C6: a cycle that passes the outage guard returns the number of filtered
    fetched domains that the sanitized persisted set lacks; it writes the
    union of the two sets, sorted, when that union differs from the loaded
    persisted set, and leaves the files alone when it does not, in which case
    the set on disk is that union. With a.com and b.com persisted, no
    allowlist and b.com and c.com fetched, it writes a.com, b.com and c.com
    and returns 1. *)
Theorem reconciler_result :
  (∀ env urls output_filename w allow fetched,
     yields (fetch_domains_from_url env ALLOWLIST_URL) allow →
     yields (fetch_multiple_sources env urls) fetched →
     let path := resolve_path env output_filename in
     let persisted := on_disk w path in
     let sanitized := (apply_allowlist persisted allow).1 in
     let removed := (apply_allowlist persisted allow).2 in
     let filtered := (apply_allowlist fetched allow).1 in
     let final := sanitized ∪ filtered in
     ¬ (filtered = ∅ ∧ removed = 0%Z) →
     ∃ w', process_sources env urls output_filename w
           = (Returned (Z.of_nat (size (filtered ∖ sanitized))), w')
           ∧ (final ≠ persisted →
              files w' = <[path := render (sorted final)]> (files w))
           ∧ (final = persisted →
              files w' = files w ∧ on_disk w' path = final))
  ∧ (∀ env urls output_filename w,
       on_disk w (resolve_path env output_filename) = {["a.com"; "b.com"]} →
       yields (fetch_domains_from_url env ALLOWLIST_URL) ∅ →
       yields (fetch_multiple_sources env urls) {["b.com"; "c.com"]} →
       ∃ w', process_sources env urls output_filename w = (Returned 1%Z, w')
             ∧ files w' = <[resolve_path env output_filename :=
                              "a.com" +:+ nl +:+ "b.com" +:+ nl +:+ "c.com" +:+ nl]>
                            (files w)).
Proof.
  assert (Hgen : ∀ env urls output_filename w allow fetched,
     yields (fetch_domains_from_url env ALLOWLIST_URL) allow →
     yields (fetch_multiple_sources env urls) fetched →
     let path := resolve_path env output_filename in
     let persisted := on_disk w path in
     let sanitized := (apply_allowlist persisted allow).1 in
     let removed := (apply_allowlist persisted allow).2 in
     let filtered := (apply_allowlist fetched allow).1 in
     let final := sanitized ∪ filtered in
     ¬ (filtered = ∅ ∧ removed = 0%Z) →
     ∃ w', process_sources env urls output_filename w
           = (Returned (Z.of_nat (size (filtered ∖ sanitized))), w')
           ∧ (final ≠ persisted →
              files w' = <[path := render (sorted final)]> (files w))
           ∧ (final = persisted →
              files w' = files w ∧ on_disk w' path = final)).
  { intros env urls output_filename w allow fetched Ha Hf
      path persisted sanitized removed filtered final Hguard.
    destruct (process_sources_run env urls output_filename w allow fetched Ha Hf)
      as (e1 & e2 & Hrun).
    fold path persisted sanitized removed filtered final in Hrun.
    rewrite decide_False in Hrun by done.
    destruct (decide (final ≠ persisted)) as [Hne|Heq].
    - eexists. split; [exact Hrun|]. split; [done|]. intros ?. done.
    - apply dec_stable in Heq.
      eexists. split; [exact Hrun|]. split; [done|]. intros _.
      split; [done|]. by rewrite on_disk_emit. }
  split; [exact Hgen|].
  intros env urls output_filename w Hdisk Ha Hf.
  destruct (Hgen env urls output_filename w ∅ {["b.com"; "c.com"]} Ha Hf)
    as (w' & Hrun & Hwrite & _).
  - rewrite Hdisk. compute_done.
  - rewrite Hdisk in Hrun, Hwrite.
    exists w'. split; [exact Hrun|].
    rewrite Hwrite; [done|]. compute_done.
Qed.

Lemma reconciler_result_witness :
  (∃ w', process_sources merge_env [sample_url] OUTPUT_FILENAME
           (sample_world ("a.com" +:+ nl +:+ "b.com" +:+ nl))
         = (Returned (Z.of_nat (size ({["b.com"; "c.com"]} ∖ {["a.com"; "b.com"]} : gset string))), w')
         ∧ files w' = <[sample_path := render (sorted {["a.com"; "b.com"; "c.com"]})]>
                        (files (sample_world ("a.com" +:+ nl +:+ "b.com" +:+ nl))))
  ∧ (∃ w', process_sources merge_env [sample_url] OUTPUT_FILENAME
             (sample_world ("a.com" +:+ nl +:+ "b.com" +:+ nl))
           = (Returned 1%Z, w')
           ∧ files w' = <[sample_path := "a.com" +:+ nl +:+ "b.com" +:+ nl +:+ "c.com" +:+ nl]>
                          (files (sample_world ("a.com" +:+ nl +:+ "b.com" +:+ nl)))).
Proof.
  split.
  - destruct (proj1 reconciler_result merge_env [sample_url] OUTPUT_FILENAME
                (sample_world ("a.com" +:+ nl +:+ "b.com" +:+ nl))
                ∅ {["b.com"; "c.com"]}) as (w' & Hrun & Hwrite & _).
    + intros w0. reflexivity.
    + intros w0. reflexivity.
    + compute_done.
    + exists w'. split; [exact Hrun|]. apply Hwrite. compute_done.
  - apply (proj2 reconciler_result merge_env [sample_url] OUTPUT_FILENAME
             (sample_world ("a.com" +:+ nl +:+ "b.com" +:+ nl))).
    + reflexivity.
    + intros w0. reflexivity.
    + intros w0. reflexivity.
Defined.

(** C7: with a.com persisted, a.com allowlisted and nothing fetched, the
    sanitized persisted set is empty with one removal, the filtered fetched
    set is empty, and the cycle does not stop at the outage guard: it writes
    an empty file and returns 0. *)
Theorem allowlist_removal_rewrites env urls output_filename w :
  on_disk w (resolve_path env output_filename) = {["a.com"]} →
  yields (fetch_domains_from_url env ALLOWLIST_URL) {["a.com"]} →
  yields (fetch_multiple_sources env urls) ∅ →
  apply_allowlist (on_disk w (resolve_path env output_filename)) {["a.com"]} = (∅, 1%Z)
  ∧ (apply_allowlist ∅ {["a.com"]}).1 = ∅
  ∧ ∃ w', process_sources env urls output_filename w = (Returned 0%Z, w')
          ∧ files w' = <[resolve_path env output_filename := ""]> (files w).
Proof.
  intros Hdisk Ha Hf.
  split; [by rewrite Hdisk|]. split; [done|].
  destruct (process_sources_run env urls output_filename w _ _ Ha Hf)
    as (e1 & e2 & Hrun).
  rewrite Hdisk in Hrun.
  rewrite decide_False in Hrun by compute_done.
  rewrite decide_True in Hrun by compute_done.
  eexists. split; [exact Hrun|]. done.
Qed.

Lemma allowlist_removal_rewrites_witness :
  ∃ w', process_sources removal_env [sample_url] OUTPUT_FILENAME
          (sample_world ("a.com" +:+ nl))
        = (Returned 0%Z, w')
        ∧ files w' = <[sample_path := ""]> (files (sample_world ("a.com" +:+ nl))).
Proof.
  apply (allowlist_removal_rewrites removal_env [sample_url] OUTPUT_FILENAME
           (sample_world ("a.com" +:+ nl))).
  - reflexivity.
  - intros w. reflexivity.
  - intros w. reflexivity.
Defined.

(** C8, as amended: when the allowlist fetched is not empty, the set a cycle
    leaves as its result holds no allowlisted domain: the loaded persisted
    set when the cycle leaves the files untouched, the final set when it
    writes it; and neither does the set read back from the written file when
    no domain written holds an at sign or whitespace. *)
Theorem allowlist_excluded env urls output_filename w allow fetched :
  yields (fetch_domains_from_url env ALLOWLIST_URL) allow →
  yields (fetch_multiple_sources env urls) fetched →
  allow ≠ ∅ →
  let path := resolve_path env output_filename in
  let persisted := on_disk w path in
  let final := (apply_allowlist persisted allow).1 ∪ (apply_allowlist fetched allow).1 in
  ∃ n w', process_sources env urls output_filename w = (Returned n, w')
    ∧ ((files w' = files w ∧ on_disk w' path ∩ allow = ∅)
       ∨ (files w' = <[path := render (sorted final)]> (files w)
          ∧ final ∩ allow = ∅
          ∧ (set_Forall plain final → on_disk w' path ∩ allow = ∅))).
Proof.
  intros Ha Hf Hne path persisted final.
  destruct (process_sources_run env urls output_filename w allow fetched Ha Hf)
    as (e1 & e2 & Hrun).
  fold path persisted in Hrun.
  assert (Hfinal : final ∩ allow = ∅).
  { subst final. rewrite !apply_allowlist_fst. set_solver. }
  destruct (decide (_ ∧ _)) as [[Hfil Hrem]|Hguard].
  - eexists _, _. split; [exact Hrun|]. left. split; [done|].
    rewrite on_disk_emit. by apply apply_allowlist_snd_zero.
  - fold final in Hrun.
    destruct (decide (final ≠ persisted)) as [Hdiff|Hsame].
    + eexists _, _. split; [exact Hrun|]. right.
      split; [done|]. split; [done|]. intros Hplain.
      rewrite on_disk_emit_written, domains_in_render_sorted; [done|].
      by apply (plain_final_reads_back env urls w path allow fetched).
    + apply dec_stable in Hsame.
      eexists _, _. split; [exact Hrun|]. left. split; [done|].
      rewrite on_disk_emit. fold persisted. by rewrite <- Hsame.
Qed.

Lemma allowlist_excluded_witness :
  ∃ n w', process_sources filter_env [sample_url] OUTPUT_FILENAME
            (sample_world ("a.com" +:+ nl))
          = (Returned n, w')
    ∧ "b.com" ∉ on_disk w' sample_path.
Proof.
  destruct (allowlist_excluded filter_env
              [sample_url] OUTPUT_FILENAME (sample_world ("a.com" +:+ nl))
              {["b.com"]} {["b.com"; "c.com"]})
    as (n & w' & Hrun & Hset).
  - intros w. reflexivity.
  - intros w. reflexivity.
  - compute_done.
  - exists n, w'. split; [exact Hrun|].
    destruct Hset as [[_ Hdisk]|(_ & _ & Hdisk)].
    + intros Hin. apply (elem_of_empty (C := gset string) "b.com").
      rewrite <- Hdisk. apply elem_of_intersection. split; [exact Hin|].
      by apply elem_of_singleton.
    + intros Hin. apply (elem_of_empty (C := gset string) "b.com").
      rewrite <- Hdisk; [|compute_done].
      apply elem_of_intersection. split; [exact Hin|].
      by apply elem_of_singleton.
Defined.

(** What the cycle leaves on disk can still hold an allowlisted domain: the
    line a@b@c.com is normalized to b@c.com, which the allowlist c.com does
    not remove, and the line written reads back as c.com; the next cycle
    reports one allowlisted domain removed from the existing output. *)
Lemma allowlisted_domain_read_back :
  yields (fetch_domains_from_url two_at_allow_env ALLOWLIST_URL) {["c.com"]}
  ∧ allow_cycle.1 = Returned 1%Z
  ∧ files allow_cycle.2 !! sample_path = Some ("b@c.com" +:+ nl)
  ∧ "c.com" ∈ on_disk allow_cycle.2 sample_path
  ∧ (INFO, RemovedExisting 1) ∈ printed allow_cycle_next.2.
Proof.
  split; [intros w; reflexivity|].
  split; [by vm_compute|]. split; [by vm_compute|]. split; [compute_done|].
  vm_compute. repeat constructor.
Qed.

(** A second cycle is idle when what the first one wrote reads back. *)
Lemma idle_after_read_back env urls output_filename w allow fetched :
  yields (fetch_domains_from_url env ALLOWLIST_URL) allow →
  yields (fetch_multiple_sources env urls) fetched →
  let path := resolve_path env output_filename in
  let persisted := on_disk w path in
  let removed := (apply_allowlist persisted allow).2 in
  let filtered := (apply_allowlist fetched allow).1 in
  let final := (apply_allowlist persisted allow).1 ∪ filtered in
  (¬ (filtered = ∅ ∧ removed = 0%Z) → final ≠ persisted →
   set_Forall reads_back final) →
  ∃ n1 w1 w2,
    process_sources env urls output_filename w = (Returned n1, w1)
    ∧ process_sources env urls output_filename w1 = (Returned 0%Z, w2)
    ∧ files w2 = files w1
    ∧ on_disk w2 path = on_disk w1 path.
Proof.
  intros Ha Hf path persisted removed filtered final Hback.
  assert (Hidle : ∀ w1, on_disk w1 path ∩ allow = ∅ →
                        filtered ⊆ on_disk w1 path →
            ∃ w2, process_sources env urls output_filename w1 = (Returned 0%Z, w2)
                  ∧ files w2 = files w1 ∧ on_disk w2 path = on_disk w1 path).
  { intros w1 Hdisj Hsub.
    destruct (process_sources_run env urls output_filename w1 allow fetched Ha Hf)
      as (e3 & e4 & Hrun2).
    fold path filtered in Hrun2.
    destruct (decide (filtered = ∅ ∧ (apply_allowlist (on_disk w1 path) allow).2 = 0%Z))
      as [_|_].
    - eexists. split; [exact Hrun2|]. split; [done|]. by rewrite on_disk_emit.
    - rewrite decide_False in Hrun2.
      + replace (filtered ∖ (apply_allowlist (on_disk w1 path) allow).1)
          with (∅ : gset string) in Hrun2.
        * eexists. split; [exact Hrun2|]. split; [done|]. by rewrite on_disk_emit.
        * rewrite apply_allowlist_fst. set_solver.
      + intros Hd. apply Hd. rewrite apply_allowlist_fst. set_solver. }
  destruct (process_sources_run env urls output_filename w allow fetched Ha Hf)
    as (e1 & e2 & Hrun1).
  fold path persisted removed filtered final in Hrun1.
  assert (Hfil : filtered ∩ allow = ∅).
  { subst filtered. rewrite apply_allowlist_fst. set_solver. }
  destruct (decide (filtered = ∅ ∧ removed = 0%Z)) as [[Hempty Hrem]|Hguard].
  - destruct (Hidle (emit e1 w)) as (w2 & H2).
    + rewrite on_disk_emit. by apply apply_allowlist_snd_zero.
    + rewrite Hempty. set_solver.
    + eexists _, _, w2. split; [exact Hrun1|]. exact H2.
  - destruct (decide (final ≠ persisted)) as [Hdiff|Hsame].
    + specialize (Hback Hguard Hdiff).
      destruct (Hidle (emit e2 (written path final (emit e1 w)))) as (w2 & H2).
      * rewrite on_disk_emit_written, domains_in_render_sorted by done.
        subst final. rewrite apply_allowlist_fst. set_solver.
      * rewrite on_disk_emit_written, domains_in_render_sorted by done.
        subst final. set_solver.
      * eexists _, _, w2. split; [exact Hrun1|]. exact H2.
    + apply dec_stable in Hsame.
      assert (Hdisj : persisted ∩ allow = ∅).
      { rewrite <- Hsame. subst final. rewrite apply_allowlist_fst. set_solver. }
      destruct (Hidle (emit e1 w)) as (w2 & H2).
      * by rewrite on_disk_emit.
      * rewrite on_disk_emit. fold persisted. rewrite <- Hsame. subst final. set_solver.
      * eexists _, _, w2. split; [exact Hrun1|]. exact H2.
Qed.

(** C3, as amended: with the same responses, when the fetches return, a
    second cycle that starts from the files the first one left returns 0 and
    leaves the files as they are, provided no domain the first cycle wrote
    holds an at sign or whitespace. *)
Theorem second_cycle_idle env urls output_filename w allow fetched :
  yields (fetch_domains_from_url env ALLOWLIST_URL) allow →
  yields (fetch_multiple_sources env urls) fetched →
  let path := resolve_path env output_filename in
  let persisted := on_disk w path in
  let removed := (apply_allowlist persisted allow).2 in
  let filtered := (apply_allowlist fetched allow).1 in
  let final := (apply_allowlist persisted allow).1 ∪ filtered in
  (¬ (filtered = ∅ ∧ removed = 0%Z) → final ≠ persisted →
   set_Forall plain final) →
  ∃ n1 w1 w2,
    process_sources env urls output_filename w = (Returned n1, w1)
    ∧ process_sources env urls output_filename w1 = (Returned 0%Z, w2)
    ∧ files w2 = files w1
    ∧ on_disk w2 path = on_disk w1 path.
Proof.
  intros Ha Hf path persisted removed filtered final Hplain.
  apply (idle_after_read_back env urls output_filename w allow fetched Ha Hf).
  intros Hguard Hdiff.
  apply (plain_final_reads_back env urls w path allow fetched Hf).
  by apply Hplain.
Qed.

Lemma second_cycle_idle_witness :
  ∃ n1 w1 w2,
    process_sources merge_env [sample_url] OUTPUT_FILENAME (sample_world ("a.com" +:+ nl))
    = (Returned n1, w1)
    ∧ process_sources merge_env [sample_url] OUTPUT_FILENAME w1 = (Returned 0%Z, w2)
    ∧ files w2 = files w1
    ∧ on_disk w2 sample_path = on_disk w1 sample_path.
Proof.
  apply (second_cycle_idle merge_env [sample_url] OUTPUT_FILENAME
           (sample_world ("a.com" +:+ nl)) ∅ {["b.com"; "c.com"]}).
  - intros w. reflexivity.
  - intros w. reflexivity.
  - intros _ _. compute_done.
Defined.

(** A second cycle with the same responses can add again and rewrite the
    file: the line a@b@c.com is normalized to b@c.com, which the first cycle
    writes; the second cycle loads that line as c.com, finds b@c.com new
    again, returns 1 and writes both. *)
Lemma second_cycle_not_idle :
  first_cycle.1 = Returned 1%Z
  ∧ files first_cycle.2 !! sample_path = Some ("b@c.com" +:+ nl)
  ∧ on_disk first_cycle.2 sample_path = {["c.com"]}
  ∧ second_cycle.1 = Returned 1%Z
  ∧ files second_cycle.2 !! sample_path = Some ("b@c.com" +:+ nl +:+ "c.com" +:+ nl)
  ∧ files second_cycle.2 ≠ files first_cycle.2.
Proof.
  repeat split; by vm_compute.
Qed.

(** * Part IV: further properties of the code *)

(** ** The normalizer: labels, fixed points, case and padding *)

(** [normalize_domain], lines 44 to 50: a non-empty result is one label, or
    two labels joined by a dot, each label non-empty and free of dots. *)
Theorem normalize_domain_at_most_two_labels line :
  normalize_domain line ≠ "" →
  (∃ l, label l ∧ normalize_domain line = l)
  ∨ (∃ l1 l2, label l1 ∧ label l2 ∧ normalize_domain line = l1 +:+ "." +:+ l2).
Proof.
  intros Hne.
  destruct (normalize_domain_labels line Hne) as (labels & Hlne & Hlen & Hall & ->).
  destruct labels as [|l1 [|l2 [|l3 rest]]]; [done| | |simpl in Hlen; lia].
  - left. exists l1. split; [|done]. by apply Forall_cons in Hall as [? _].
  - right. exists l1, l2.
    apply Forall_cons in Hall as [H1 Hall]. by apply Forall_cons in Hall as [H2 _].
Qed.

Lemma normalize_domain_at_most_two_labels_witness :
  (∃ l, label l ∧ normalize_domain "a.b.Example.COM" = l)
  ∨ (∃ l1 l2, label l1 ∧ label l2
              ∧ normalize_domain "a.b.Example.COM" = l1 +:+ "." +:+ l2).
Proof. apply (normalize_domain_at_most_two_labels "a.b.Example.COM"). done. Defined.

Lemma lstrip_space_prefix pad s :
  all_chars Py.isspace pad = true → Py.lstrip (pad +:+ s) = Py.lstrip s.
Proof.
  induction pad as [|c pad IH]; [done|]. simpl all_chars.
  intros [Hc Hpad]%andb_prop. rewrite append_cons. simpl. by rewrite Hc, IH.
Qed.

Lemma rstrip_all_space pad : all_chars Py.isspace pad = true → Py.rstrip pad = "".
Proof.
  induction pad as [|c pad IH]; [done|]. simpl.
  intros [Hc Hpad]%andb_prop. by rewrite Hc, IH.
Qed.

Lemma rstrip_space_suffix s pad :
  all_chars Py.isspace pad = true → Py.rstrip (s +:+ pad) = Py.rstrip s.
Proof.
  intros Hpad. induction s as [|c s IH]; [by apply rstrip_all_space|].
  rewrite append_cons. simpl. by rewrite IH.
Qed.

Lemma lstrip_all_space pad : all_chars Py.isspace pad = true → Py.lstrip pad = "".
Proof.
  induction pad as [|c pad IH]; [done|]. simpl.
  intros [Hc Hpad]%andb_prop. by rewrite Hc, IH.
Qed.

Lemma strip_space_suffix s pad :
  all_chars Py.isspace pad = true → Py.strip (s +:+ pad) = Py.strip s.
Proof.
  intros Hpad. unfold Py.strip. induction s as [|c s IH].
  - rewrite append_nil_l, lstrip_all_space by done. done.
  - rewrite append_cons. simpl. destruct (Py.isspace c); [exact IH|].
    rewrite <- append_cons. by apply rstrip_space_suffix.
Qed.

Lemma strip_padded pad1 s pad2 :
  all_chars Py.isspace pad1 = true → all_chars Py.isspace pad2 = true →
  Py.strip (pad1 +:+ s +:+ pad2) = Py.strip s.
Proof.
  intros H1 H2. unfold Py.strip. rewrite lstrip_space_prefix by done.
  by apply strip_space_suffix.
Qed.

(** The normalizer reads its entry through [strip] only. *)
Lemma normalize_domain_strip_eq e1 e2 :
  Py.strip e1 = Py.strip e2 → normalize_domain e1 = normalize_domain e2.
Proof. intros H. unfold normalize_domain. by rewrite H. Qed.

(** [normalize_domain], line 32: whitespace around an entry does not change
    its normal form; the line terminators LF and CR LF are such whitespace. *)
Theorem normalize_domain_ignores_padding pad1 line pad2 :
  all_chars Py.isspace pad1 = true → all_chars Py.isspace pad2 = true →
  normalize_domain (pad1 +:+ line +:+ pad2) = normalize_domain line.
Proof. intros H1 H2. by apply normalize_domain_strip_eq, strip_padded. Qed.

Lemma normalize_domain_ignores_padding_witness :
  normalize_domain ("  " +:+ "Mail.Example.com" +:+ String CR nl)
  = normalize_domain "Mail.Example.com".
Proof.
  apply (normalize_domain_ignores_padding "  " "Mail.Example.com" (String CR nl));
    reflexivity.
Defined.

(** [normalize_domain]: a result without at sign and whitespace is a fixed
    point, with or without a line terminator after it. *)
Theorem normalize_domain_idempotent line :
  let domain := normalize_domain line in
  domain ≠ "" → plain domain →
  normalize_domain domain = domain ∧ normalize_domain (domain +:+ nl) = domain.
Proof.
  intros domain Hne Hplain.
  pose proof (normalize_domain_fixed line Hne Hplain) as Hfix.
  cbv zeta in Hfix. fold domain in Hfix. split; [|exact Hfix].
  rewrite <- Hfix at 2. symmetry.
  apply normalize_domain_strip_eq, (strip_padded "" domain nl); reflexivity.
Qed.

Lemma normalize_domain_idempotent_witness :
  normalize_domain (normalize_domain "## FREE@MAIL.example.CO.UK  ")
  = normalize_domain "## FREE@MAIL.example.CO.UK  ".
Proof.
  apply (normalize_domain_idempotent "## FREE@MAIL.example.CO.UK  ").
  - done.
  - split; reflexivity.
Defined.

Lemma lower_char_more c :
  Ascii.eqb (Py.lower_char c) " " = Ascii.eqb c " ".
Proof. destruct c as [[] [] [] [] [] [] [] []]; by vm_compute. Qed.

Lemma truthy_lower s : Py.truthy (Py.lower s) = Py.truthy s.
Proof. by destruct s. Qed.

Lemma lstrip_lower s : Py.lstrip (Py.lower s) = Py.lower (Py.lstrip s).
Proof.
  induction s as [|c s IH]; [done|]. simpl.
  rewrite (proj1 (proj2 (lower_char_facts c))). by destruct (Py.isspace c).
Qed.

Lemma rstrip_lower s : Py.rstrip (Py.lower s) = Py.lower (Py.rstrip s).
Proof.
  induction s as [|c s IH]; [done|]. simpl.
  rewrite (proj1 (proj2 (lower_char_facts c))), IH, truthy_lower.
  by destruct (Py.isspace c && negb (Py.truthy (Py.rstrip s))).
Qed.

Lemma strip_lower s : Py.strip (Py.lower s) = Py.lower (Py.strip s).
Proof. unfold Py.strip. by rewrite lstrip_lower, rstrip_lower. Qed.

Lemma delete_marker_lower s :
  Spec.delete_marker (Py.lower s) = Py.lower (Spec.delete_marker s).
Proof.
  remember (String.length s) as n eqn:Hn.
  revert s Hn. induction n as [n IH] using lt_wf_ind. intros s Hn.
  destruct s as [|a [|b [|c r']]]; [done|done|done|].
  change (Py.lower (String a (String b (String c r'))))
    with (String (Py.lower_char a) (String (Py.lower_char b)
            (String (Py.lower_char c) (Py.lower r')))).
  change (Spec.delete_marker (String (Py.lower_char a) (String (Py.lower_char b)
            (String (Py.lower_char c) (Py.lower r')))))
    with (if Ascii.eqb (Py.lower_char a) "#" && Ascii.eqb (Py.lower_char b) "#"
             && Ascii.eqb (Py.lower_char c) " "
          then Spec.delete_marker (Py.lower r')
          else String (Py.lower_char a)
                 (Spec.delete_marker (Py.lower (String b (String c r'))))).
  change (Spec.delete_marker (String a (String b (String c r'))))
    with (if Ascii.eqb a "#" && Ascii.eqb b "#" && Ascii.eqb c " "
          then Spec.delete_marker r'
          else String a (Spec.delete_marker (String b (String c r')))).
  rewrite (proj1 (proj2 (proj2 (lower_char_facts a)))),
    (proj1 (proj2 (proj2 (lower_char_facts b)))), lower_char_more.
  destruct (Ascii.eqb a "#" && Ascii.eqb b "#" && Ascii.eqb c " ").
  - apply (IH (String.length r')); simpl in *; lia.
  - simpl Py.lower at 2. f_equal.
    apply (IH (String.length (String b (String c r')))); simpl in *; lia.
Qed.

Section LowerKeeps.

(** A character that lowercasing neither makes nor unmakes. *)
Variable sep : ascii.
Hypothesis sep_kept : ∀ c, Ascii.eqb (Py.lower_char c) sep = Ascii.eqb c sep.

Lemma occurs_lower s : Spec.occurs sep (Py.lower s) = Spec.occurs sep s.
Proof. induction s as [|c s IH]; [done|]. simpl. by rewrite sep_kept, IH. Qed.

Lemma before_lower s : Spec.before sep (Py.lower s) = Py.lower (Spec.before sep s).
Proof.
  induction s as [|c s IH]; [done|]. simpl. rewrite sep_kept, IH.
  by destruct (Ascii.eqb c sep).
Qed.

Lemma after_lower s : Spec.after sep (Py.lower s) = Py.lower (Spec.after sep s).
Proof.
  induction s as [|c s IH]; [done|]. simpl. rewrite sep_kept, IH.
  by destruct (Ascii.eqb c sep).
Qed.

Lemma split_lower s : Py.split sep (Py.lower s) = Py.lower <$> Py.split sep s.
Proof.
  induction s as [|c s IH]; [done|]. simpl. rewrite sep_kept, IH.
  destruct (Ascii.eqb c sep); [done|]. by destruct (Py.split sep s).
Qed.

End LowerKeeps.

Lemma filter_nonempty_lower (l : list string) :
  filter (λ segment, segment ≠ "") (Py.lower <$> l)
  = Py.lower <$> filter (λ segment, segment ≠ "") l.
Proof.
  induction l as [|x l IH]; [done|].
  rewrite fmap_cons, !filter_cons, IH.
  destruct (decide (x ≠ "")) as [Hx|Hx].
  - rewrite decide_True; [done|]. by rewrite lower_empty.
  - rewrite decide_False; [done|]. by rewrite lower_empty.
Qed.

Lemma rev_fmap {A B} (f : A → B) (l : list A) : rev (f <$> l) = f <$> rev l.
Proof.
  induction l as [|x l IH]; [done|].
  rewrite fmap_cons. cbn [rev]. by rewrite IH, fmap_app.
Qed.

Lemma stop_if_empty_lower s :
  Spec.stop_if_empty (Py.lower s) = Py.lower <$> Spec.stop_if_empty s.
Proof. unfold Spec.stop_if_empty. rewrite truthy_lower. by destruct (Py.truthy s). Qed.

(** Each of the first seven rules commutes with lowercasing, and the last
    one absorbs it. *)
Lemma rules_lower s :
  Spec.rule1 (Py.lower s) = Py.lower <$> Spec.rule1 s
  ∧ Spec.rule2 (Py.lower s) = Py.lower <$> Spec.rule2 s
  ∧ Spec.rule3 (Py.lower s) = Py.lower <$> Spec.rule3 s
  ∧ Spec.rule4 (Py.lower s) = Py.lower <$> Spec.rule4 s
  ∧ Spec.rule5 (Py.lower s) = Py.lower <$> Spec.rule5 s
  ∧ Spec.rule6 (Py.lower s) = Py.lower <$> Spec.rule6 s
  ∧ Spec.rule7 (Py.lower s) = Py.lower <$> Spec.rule7 s
  ∧ Spec.rule8 (Py.lower s) = Spec.rule8 s.
Proof.
  assert (Hhash := λ c, proj1 (proj2 (proj2 (lower_char_facts c)))).
  assert (Hat := λ c, proj1 (proj2 (proj2 (proj2 (lower_char_facts c))))).
  assert (Hdot := λ c, proj2 (proj2 (proj2 (proj2 (lower_char_facts c))))).
  repeat split.
  - unfold Spec.rule1. by rewrite strip_lower, stop_if_empty_lower.
  - unfold Spec.rule2. by rewrite delete_marker_lower, stop_if_empty_lower.
  - unfold Spec.rule3. destruct s as [|c r]; [done|]. simpl.
    rewrite Hhash. by destruct (Ascii.eqb c "#").
  - unfold Spec.rule4. rewrite occurs_lower, before_lower, strip_lower by done.
    rewrite <- stop_if_empty_lower. by destruct (Spec.occurs "#" s).
  - unfold Spec.rule5. rewrite occurs_lower, after_lower by done.
    rewrite <- stop_if_empty_lower. by destruct (Spec.occurs "@" s).
  - unfold Spec.rule6. rewrite split_lower, filter_nonempty_lower by done.
    by rewrite <- stop_if_empty_lower, lower_join.
  - unfold Spec.rule7. rewrite split_lower by done.
    rewrite <- stop_if_empty_lower. f_equal.
    rewrite rev_fmap.
    destruct (rev (Py.split "." s)) as [|y [|x [|z t]]]; try done.
    change (Py.lower <$> y :: x :: z :: t)
      with (Py.lower y :: Py.lower x :: Py.lower z :: (Py.lower <$> t)).
    by rewrite !join_two, !lower_app.
  - unfold Spec.rule8. by rewrite lower_lower.
Qed.

(** [normalize_domain], lines 30 to 50: the case of the letters of an entry
    does not change its normal form. *)
Theorem normalize_domain_ignores_case line :
  normalize_domain (Py.lower line) = normalize_domain line.
Proof.
  rewrite !normalize_domain_rules. unfold Spec.normalize.
  rewrite (proj1 (rules_lower line)).
  destruct (Spec.rule1 line) as [s1|]; [simpl|done].
  rewrite (proj1 (proj2 (rules_lower s1))).
  destruct (Spec.rule2 s1) as [s2|]; [simpl|done].
  rewrite (proj1 (proj2 (proj2 (rules_lower s2)))).
  destruct (Spec.rule3 s2) as [s3|]; [simpl|done].
  rewrite (proj1 (proj2 (proj2 (proj2 (rules_lower s3))))).
  destruct (Spec.rule4 s3) as [s4|]; [simpl|done].
  rewrite (proj1 (proj2 (proj2 (proj2 (proj2 (rules_lower s4)))))).
  destruct (Spec.rule5 s4) as [s5|]; [simpl|done].
  rewrite (proj1 (proj2 (proj2 (proj2 (proj2 (proj2 (rules_lower s5))))))).
  destruct (Spec.rule6 s5) as [s6|]; [simpl|done].
  rewrite (proj1 (proj2 (proj2 (proj2 (proj2 (proj2 (proj2 (rules_lower s6)))))))).
  destruct (Spec.rule7 s6) as [s7|]; [simpl|done].
  by rewrite (proj2 (proj2 (proj2 (proj2 (proj2 (proj2 (proj2 (rules_lower s7)))))))).
Qed.

(** ** The allowlist filter: counting and composition *)

(** [apply_allowlist], lines 87 to 92: every candidate is either kept or
    counted as removed; no more is removed than the allowlist holds; and
    nothing is removed exactly when the candidates come back as they were. *)
Theorem apply_allowlist_counts (candidates allow : gset string) :
  let filtered := (apply_allowlist candidates allow).1 in
  let removed := (apply_allowlist candidates allow).2 in
  (Z.of_nat (size filtered) + removed = Z.of_nat (size candidates))%Z
  ∧ (0 ≤ removed ≤ Z.of_nat (size allow))%Z
  ∧ (removed = 0%Z ↔ filtered = candidates).
Proof.
  intros filtered removed. subst filtered removed.
  rewrite apply_allowlist_fst, apply_allowlist_snd.
  split; [|split].
  - rewrite (size_split candidates allow). lia.
  - split; [lia|]. apply inj_le, subseteq_size. set_solver.
  - split.
    + intros H. assert (candidates ∩ allow = ∅) as Hd.
      { apply leibniz_equiv, size_empty_inv. lia. }
      set_solver.
    + intros H. replace (candidates ∩ allow) with (∅ : gset string); [done|].
      set_solver.
Qed.

(** [apply_allowlist], lines 87 to 92: filtering twice is filtering once;
    filtering a union is the union of the filterings; and filtering by one
    allowlist and then by another is filtering by both. *)
Theorem apply_allowlist_composes (X Y A B : gset string) :
  apply_allowlist (apply_allowlist X A).1 A = ((apply_allowlist X A).1, 0%Z)
  ∧ (apply_allowlist (X ∪ Y) A).1 = (apply_allowlist X A).1 ∪ (apply_allowlist Y A).1
  ∧ (apply_allowlist (apply_allowlist X A).1 B).1 = (apply_allowlist X (A ∪ B)).1.
Proof.
  split; [|split].
  - rewrite (surjective_pairing (apply_allowlist (apply_allowlist X A).1 A)).
    rewrite apply_allowlist_snd, !apply_allowlist_fst. f_equal; [set_solver|].
    replace (X ∖ A ∩ A) with (∅ : gset string) by set_solver. done.
  - rewrite !apply_allowlist_fst. set_solver.
  - rewrite !apply_allowlist_fst. set_solver.
Qed.

(** ** Writing: the order of the lines *)

Lemma str_leb_trans a b c :
  String.leb a b = true → String.leb b c = true → String.leb a c = true.
Proof.
  unfold String.leb. revert b c.
  induction a as [|x a IH]; intros [|y b] [|z c]; simpl; try done.
  unfold Ascii.compare.
  destruct (N.compare_spec (N_of_ascii x) (N_of_ascii y)) as [Hxy|Hxy|Hxy];
    destruct (N.compare_spec (N_of_ascii y) (N_of_ascii z)) as [Hyz|Hyz|Hyz];
    destruct (N.compare_spec (N_of_ascii x) (N_of_ascii z)) as [Hxz|Hxz|Hxz];
    try done; try lia.
  apply IH.
Qed.

Lemma str_le_transitive : Transitive str_le.
Proof. intros a b c. apply str_leb_trans. Qed.

Lemma str_le_total : Total str_le.
Proof. intros a b. apply String.leb_total. Qed.

Lemma elem_of_sorted (domains : gset string) d : d ∈ sorted domains ↔ d ∈ domains.
Proof. unfold sorted. by rewrite merge_sort_Permutation, elem_of_elements. Qed.

Lemma NoDup_sorted (domains : gset string) : NoDup (sorted domains).
Proof. unfold sorted. rewrite merge_sort_Permutation. apply NoDup_elements. Qed.

Lemma readlines_render_plain (l : list string) :
  Forall (λ d, all_chars not_space d = true) l →
  readlines (render l) = (λ d, d +:+ nl) <$> l.
Proof.
  induction 1 as [|d l Hd Hl IH]; [done|].
  change (render (d :: l)) with (d +:+ (nl +:+ render l)).
  by rewrite <- append_assoc, readlines_app_nl, readlines_plain, IH.
Qed.

(** [write_domains], lines 95 to 99: the file at the path is replaced by the
    given domains, each once, in ascending order of code points, whatever
    the file held before; no other file changes and nothing is printed.
    When no domain holds whitespace, each domain is a line of its own. *)
Theorem write_domains_sorted_lines (domains : gset string) path w :
  ∃ lines,
    write_domains domains path w
    = (Returned tt, {| files := <[path := render lines]> (files w);
                       printed := printed w |})
    ∧ (∀ d, d ∈ lines ↔ d ∈ domains)
    ∧ NoDup lines
    ∧ StronglySorted str_le lines
    ∧ length lines = size domains
    ∧ (set_Forall (λ d, all_chars not_space d = true) domains →
       readlines (render lines) = (λ d, d +:+ nl) <$> lines).
Proof.
  exists (sorted domains). split; [done|]. split; [apply elem_of_sorted|].
  split; [apply NoDup_sorted|]. split.
  { apply StronglySorted_merge_sort; [apply str_le_transitive|apply str_le_total]. }
  split.
  - unfold sorted. by rewrite merge_sort_Permutation.
  - intros Hplain. apply readlines_render_plain, Forall_forall.
    intros d Hd. by apply Hplain, elem_of_sorted.
Qed.

(** ** Loading: what a file gives *)

Lemma domains_in_normalized content : domains_in content = normalized (readlines content).
Proof.
  unfold domains_in. fold add_line.
  induction (readlines content) as [|line lines IH] using rev_ind.
  - unfold normalized. set_solver.
  - rewrite foldl_app. simpl. rewrite IH. unfold add_line, normalized.
    rewrite fmap_app, filter_app, list_to_set_app_L. simpl.
    rewrite filter_cons, filter_nil.
    destruct (Py.truthy (normalize_domain line)) eqn:Ht.
    + rewrite decide_True by done. set_solver.
    + rewrite decide_False by done. set_solver.
Qed.

(** [load_existing_domains], lines 53 to 62: loading returns, changes
    nothing and prints nothing; a missing file gives the empty set; and
    whatever the file holds, every domain loaded is non-empty, lowercase,
    free of hashes, and one label or two labels joined by a dot. *)
Theorem load_existing_domains_well_formed path w :
  ∃ domains,
    load_existing_domains path w = (Returned domains, w)
    ∧ (files w !! path = None → domains = ∅)
    ∧ ∀ d, d ∈ domains →
        d ≠ "" ∧ Py.lower d = d ∧ Py.contains "#" d = false
        ∧ ∃ labels, labels ≠ [] ∧ (length labels ≤ 2)%nat ∧ Forall label labels
                    ∧ d = Py.join "." labels.
Proof.
  exists (on_disk w path). split; [apply load_existing_domains_run|]. split.
  - intros Hnone. by rewrite on_disk_lookup, Hnone.
  - intros d Hd. destruct (on_disk_normal_form w path d Hd) as [Hne [line ->]].
    destruct (normalize_domain_lower_no_hash line Hne) as [Hlow Hhash].
    split; [done|]. split; [done|]. split; [done|].
    by apply normalize_domain_labels.
Qed.

Lemma readlines_line_lf l :
  all_chars no_break l = true → readlines (l +:+ nl) = [l +:+ nl].
Proof.
  induction l as [|x r IH]; [done|].
  simpl all_chars. unfold no_break at 1.
  intros [[Hlf Hcr]%andb_prop Hr]%andb_prop.
  apply negb_true_iff in Hlf, Hcr.
  by rewrite append_cons, readlines_cons_other, (IH Hr).
Qed.

Lemma readlines_line_crlf l rest :
  all_chars no_break l = true →
  readlines (l +:+ String CR (String LF rest)) = (l +:+ nl) :: readlines rest.
Proof.
  induction l as [|x r IH]; [intros _; apply readlines_CR_LF|].
  simpl all_chars. unfold no_break at 1.
  intros [[Hlf Hcr]%andb_prop Hr]%andb_prop.
  apply negb_true_iff in Hlf, Hcr.
  by rewrite !append_cons, readlines_cons_other, (IH Hr).
Qed.

Lemma readlines_line_cr l rest :
  all_chars no_break l = true → String.prefix nl rest = false →
  readlines (l +:+ String CR rest) = (l +:+ nl) :: readlines rest.
Proof.
  intros Hl Hrest. induction l as [|x r IH].
  - rewrite append_nil_l. destruct rest as [|c rest]; [done|].
    apply readlines_CR_other.
    unfold nl in Hrest. rewrite prefix_cons in Hrest.
    replace (String.prefix "" rest) with true in Hrest by (by destruct rest).
    by rewrite andb_true_r in Hrest.
  - simpl in Hl. unfold no_break at 1 in Hl.
    apply andb_prop in Hl as [[Hlf Hcr]%andb_prop Hr].
    apply negb_true_iff in Hlf, Hcr.
    by rewrite !append_cons, readlines_cons_other, (IH Hr).
Qed.

Lemma terminated_cr_no_lf lines :
  Forall (λ l, all_chars no_break l = true) lines →
  String.prefix nl (terminated (String CR "") lines) = false.
Proof.
  destruct 1 as [|l lines Hl _]; [done|].
  change (terminated (String CR "") (l :: lines))
    with (l +:+ String CR "" +:+ terminated (String CR "") lines).
  destruct l as [|c l]; [done|].
  rewrite append_cons. unfold nl. rewrite prefix_cons.
  simpl in Hl. unfold no_break at 1 in Hl.
  apply andb_prop in Hl as [[Hlf _]%andb_prop _].
  apply negb_true_iff in Hlf. by rewrite Hlf.
Qed.

Lemma readlines_terminated lines :
  Forall (λ l, all_chars no_break l = true) lines →
  readlines (terminated nl lines) = (λ l, l +:+ nl) <$> lines
  ∧ readlines (terminated (String CR nl) lines) = (λ l, l +:+ nl) <$> lines
  ∧ readlines (terminated (String CR "") lines) = (λ l, l +:+ nl) <$> lines.
Proof.
  induction 1 as [|l lines Hl Hlines (IH1 & IH2 & IH3)]; [done|].
  split; [|split].
  - change (terminated nl (l :: lines)) with (l +:+ (nl +:+ terminated nl lines)).
    by rewrite <- append_assoc, readlines_app_nl, readlines_line_lf, IH1.
  - change (terminated (String CR nl) (l :: lines))
      with (l +:+ String CR (String LF (terminated (String CR nl) lines))).
    by rewrite readlines_line_crlf, IH2.
  - change (terminated (String CR "") (l :: lines))
      with (l +:+ String CR (terminated (String CR "") lines)).
    rewrite readlines_line_cr, IH3; [done|done|].
    by apply terminated_cr_no_lf.
Qed.

Lemma normalized_terminators lines :
  normalized ((λ l, l +:+ nl) <$> lines) = normalized lines.
Proof.
  unfold normalized. f_equal. f_equal. rewrite <- list_fmap_compose.
  apply list_fmap_ext. intros _ l _. simpl.
  apply normalize_domain_strip_eq, (strip_padded "" l nl); reflexivity.
Qed.

(** [load_existing_domains], lines 57 to 61: a file whose lines end with LF,
    with CR LF or with CR alone loads as the same set, the non-empty normal
    forms of its lines. *)
Theorem load_ignores_line_endings path lines w1 w2 w3 :
  Forall (λ l, all_chars no_break l = true) lines →
  files w1 !! path = Some (terminated nl lines) →
  files w2 !! path = Some (terminated (String CR nl) lines) →
  files w3 !! path = Some (terminated (String CR "") lines) →
  (load_existing_domains path w1).1 = Returned (normalized lines)
  ∧ (load_existing_domains path w2).1 = Returned (normalized lines)
  ∧ (load_existing_domains path w3).1 = Returned (normalized lines).
Proof.
  intros Hlines H1 H2 H3.
  destruct (readlines_terminated lines Hlines) as (R1 & R2 & R3).
  rewrite !load_existing_domains_run. simpl.
  rewrite !on_disk_lookup, H1, H2, H3, !domains_in_normalized, R1, R2, R3.
  by rewrite normalized_terminators.
Qed.

Lemma load_ignores_line_endings_witness :
  (load_existing_domains sample_path
     (sample_world (terminated (String CR nl) ["Mail.Example.com"; "# note"; "b.org"]))).1
  = Returned (normalized ["Mail.Example.com"; "# note"; "b.org"]).
Proof.
  apply (load_ignores_line_endings sample_path ["Mail.Example.com"; "# note"; "b.org"]
           (sample_world (terminated nl ["Mail.Example.com"; "# note"; "b.org"]))
           (sample_world (terminated (String CR nl) ["Mail.Example.com"; "# note"; "b.org"]))
           (sample_world (terminated (String CR "") ["Mail.Example.com"; "# note"; "b.org"])));
    try reflexivity.
  repeat constructor.
Defined.

(** ** Writing and loading again *)

Lemma settled_reads_back d : settled d → reads_back d.
Proof.
  intros (Hne & Hfix & Hbreak). unfold reads_back.
  rewrite domains_in_normalized, readlines_line_lf by done.
  unfold normalized. simpl.
  rewrite (normalize_domain_strip_eq (d +:+ nl) d), Hfix
    by (apply (strip_padded "" d nl); reflexivity).
  rewrite filter_cons, decide_True by (by apply truthy_true).
  rewrite filter_nil. set_solver.
Qed.

(** [write_domains] then [load_existing_domains], lines 95 to 99 and 53 to
    62: a set of domains that the normalizer leaves as they are, and that
    hold no line break, is loaded back as it was written. *)
Theorem write_then_load (domains : gset string) path w :
  set_Forall settled domains →
  (write_domains domains path ≫= λ _, load_existing_domains path) w
  = (Returned domains, written path domains w).
Proof.
  intros Hall. bind_step. rewrite write_domains_run, load_existing_domains_run.
  rewrite on_disk_written, domains_in_render_sorted; [done|].
  intros d Hd. by apply settled_reads_back, Hall.
Qed.

Lemma write_then_load_witness :
  (write_domains {["b.org"; "example.com"]} sample_path
   ≫= λ _, load_existing_domains sample_path) empty_world
  = (Returned {["b.org"; "example.com"]},
     written sample_path {["b.org"; "example.com"]} empty_world).
Proof. apply (write_then_load {["b.org"; "example.com"]}). compute_done. Defined.

(** ** Fetching several sources *)

Lemma delivered_by_elem env urls d :
  d ∈ delivered_by env urls
  ↔ ∃ url, url ∈ urls ∧ d ∈ normalized (delivered (urlopen env url)).
Proof.
  unfold delivered_by. rewrite elem_of_union_list. split.
  - intros (X & HX & Hd). apply list_elem_of_fmap in HX as (url & -> & Hurl). eauto.
  - intros (url & Hurl & Hd). eexists. split; [|exact Hd].
    apply list_elem_of_fmap. eauto.
Qed.

(** [fetch_multiple_sources], lines 79 to 84: when every failure among the
    sources is one the fetch catches, the set returned depends only on
    which URLs are listed, not on their order or on repetitions. *)
Theorem fetch_multiple_sources_order env urls1 urls2 w :
  Forall (λ url, ∀ exc, ending (urlopen env url) = Some exc → caught exc = true) urls1 →
  (∀ url, url ∈ urls1 ↔ url ∈ urls2) →
  ∃ fetched,
    (fetch_multiple_sources env urls1 w).1 = Returned fetched
    ∧ (fetch_multiple_sources env urls2 w).1 = Returned fetched
    ∧ ∀ d, d ∈ fetched
           ↔ ∃ url, url ∈ urls1 ∧ d ∈ normalized (delivered (urlopen env url)).
Proof.
  intros Hall Hsame.
  assert (Hall2 : Forall (λ url, ∀ exc, ending (urlopen env url) = Some exc
                                        → caught exc = true) urls2).
  { apply Forall_forall. intros url Hurl. apply Hsame in Hurl.
    by apply (proj1 (Forall_forall _ _) Hall). }
  unfold fetch_multiple_sources.
  destruct (aggregate_spec env urls1 ∅ w Hall) as (e1 & ->).
  destruct (aggregate_spec env urls2 ∅ w Hall2) as (e2 & ->).
  exists (delivered_by env urls1). rewrite !union_empty_l_L. simpl.
  split; [done|]. split; [|apply delivered_by_elem].
  f_equal. apply set_eq. intros d. rewrite !delivered_by_elem.
  split; intros (url & Hurl & Hd); exists url; (split; [by apply Hsame|done]).
Qed.

Lemma fetch_multiple_sources_order_witness :
  ∃ fetched,
    (fetch_multiple_sources broken_env [sample_url; ALLOWLIST_URL] empty_world).1
    = Returned fetched
    ∧ (fetch_multiple_sources broken_env [ALLOWLIST_URL; sample_url; sample_url] empty_world).1
      = Returned fetched.
Proof.
  destruct (fetch_multiple_sources_order broken_env [sample_url; ALLOWLIST_URL]
              [ALLOWLIST_URL; sample_url; sample_url] empty_world)
    as (fetched & H1 & H2 & _).
  - repeat constructor; intros exc [= <-]; reflexivity.
  - intros url. rewrite !elem_of_cons, elem_of_nil. tauto.
  - by exists fetched.
Defined.

(** ** The cycle: what it leaves alone *)

(** The world after a cycle: the one before with more printed, and with the
    output file written when the cycle returns after a write. *)
Lemma process_sources_world env urls output_filename w :
  (∃ r entries, process_sources env urls output_filename w = (r, emit entries w))
  ∨ (∃ n e1 e2 final,
       process_sources env urls output_filename w
       = (Returned n, emit e2 (written (resolve_path env output_filename) final
                                 (emit e1 w)))).
Proof.
  destruct (fetch_domains_from_url_run env ALLOWLIST_URL) as (ra & ea & Ha).
  destruct (aggregate_run env urls ∅) as (rf & ef & Hf).
  destruct ra as [allow|exc].
  - destruct rf as [fetched|exc].
    + assert (Hya : yields (fetch_domains_from_url env ALLOWLIST_URL) allow).
      { intros w0. by rewrite Ha. }
      assert (Hyf : yields (fetch_multiple_sources env urls) fetched).
      { intros w0. unfold fetch_multiple_sources. by rewrite Hf. }
      destruct (process_sources_run env urls output_filename w allow fetched Hya Hyf)
        as (e1 & e2 & Hrun).
      destruct (decide (_ ∧ _)); [left; eauto|].
      destruct (decide (_ ≠ _)); [right; eauto 6|left; eauto].
    + left. unfold process_sources.
      bind_step. rewrite load_existing_domains_run.
      change (Py.truthy ALLOWLIST_URL) with true. cbv iota.
      bind_step. rewrite Ha. simpl andb.
      destruct (when_log_run (negb (nonempty_set allow)) AllowlistEmpty WARN)
        as (e_a & He_a).
      bind_step. rewrite He_a, emit_emit.
      destruct (apply_allowlist (on_disk w (resolve_path env output_filename)) allow)
        as [sanitized removed].
      destruct (when_log_run (negb (removed =? 0)%Z) (RemovedExisting removed) INFO)
        as (e_r & He_r).
      bind_step. rewrite He_r, emit_emit.
      bind_step. unfold fetch_multiple_sources. rewrite Hf, emit_emit. eauto.
  - left. unfold process_sources.
    bind_step. rewrite load_existing_domains_run.
    change (Py.truthy ALLOWLIST_URL) with true. cbv iota.
    bind_step. rewrite Ha. eauto.
Qed.

(** [process_sources], lines 102 to 135: a cycle changes no file but the
    output file; a cycle that ends with an exception changes no file at all;
    and what was printed before the cycle is still there, with the entries
    of the cycle after it. *)
Theorem process_sources_frame env urls output_filename w :
  let run := process_sources env urls output_filename w in
  (∀ path, path ≠ resolve_path env output_filename →
           files run.2 !! path = files w !! path)
  ∧ (∀ exc, run.1 = Raised exc → files run.2 = files w)
  ∧ ∃ entries, printed run.2 = (printed w ++ entries)%list.
Proof.
  intros run. subst run.
  destruct (process_sources_world env urls output_filename w)
    as [(r & e & ->)|(n & e1 & e2 & final & ->)]; simpl.
  - split; [done|]. split; [done|]. by exists e.
  - split; [|split; [done|]].
    + intros path Hpath. by rewrite lookup_insert_ne.
    + exists (e1 ++ e2)%list. by rewrite app_assoc.
Qed.

(** ** The cycle: counting *)

(** [process_sources], lines 111 to 135: the number returned is at most the
    number of domains fetched, and is 0 when every domain fetched is already
    persisted; past the outage guard, the final set has as many domains as
    were persisted, less those removed, plus the number returned. *)
Theorem process_sources_counts env urls output_filename w allow fetched :
  yields (fetch_domains_from_url env ALLOWLIST_URL) allow →
  yields (fetch_multiple_sources env urls) fetched →
  let persisted := on_disk w (resolve_path env output_filename) in
  let sanitized := (apply_allowlist persisted allow).1 in
  let removed := (apply_allowlist persisted allow).2 in
  let filtered := (apply_allowlist fetched allow).1 in
  ∃ n w',
    process_sources env urls output_filename w = (Returned n, w')
    ∧ (0 ≤ n ≤ Z.of_nat (size fetched))%Z
    ∧ (fetched ⊆ persisted → n = 0%Z)
    ∧ (¬ (filtered = ∅ ∧ removed = 0%Z) →
       Z.of_nat (size (sanitized ∪ filtered))
       = (Z.of_nat (size persisted) - removed + n)%Z).
Proof.
  intros Ha Hf persisted sanitized removed filtered.
  destruct (process_sources_run env urls output_filename w allow fetched Ha Hf)
    as (e1 & e2 & Hrun).
  fold persisted sanitized removed filtered in Hrun.
  assert (Hle : (size (filtered ∖ sanitized) ≤ size fetched)%nat).
  { apply subseteq_size. subst filtered. rewrite apply_allowlist_fst. set_solver. }
  assert (Hsub : fetched ⊆ persisted → filtered ∖ sanitized = ∅).
  { intros Hsub. subst filtered sanitized. rewrite !apply_allowlist_fst. set_solver. }
  destruct (decide (filtered = ∅ ∧ removed = 0%Z)) as [Hguard|Hguard].
  - eexists _, _. split; [exact Hrun|]. split; [lia|]. split; [done|]. done.
  - eexists _, _. split; [exact Hrun|]. split; [lia|]. split.
    + intros Hs. by rewrite (Hsub Hs), size_empty.
    + intros _.
      assert (Hsize : (Z.of_nat (size sanitized) + removed
                       = Z.of_nat (size persisted))%Z).
      { subst sanitized removed. rewrite apply_allowlist_fst, apply_allowlist_snd.
        rewrite (size_split persisted allow). lia. }
      replace (sanitized ∪ filtered) with (sanitized ∪ filtered ∖ sanitized).
      * rewrite size_union by set_solver. lia.
      * apply set_eq. intros x. destruct (decide (x ∈ sanitized)); set_solver.
Qed.

Lemma process_sources_counts_witness :
  ∃ n w',
    process_sources merge_env [sample_url] OUTPUT_FILENAME
      (sample_world ("a.com" +:+ nl +:+ "b.com" +:+ nl))
    = (Returned n, w')
    ∧ (0 ≤ n ≤ Z.of_nat (size ({["b.com"; "c.com"]} : gset string)))%Z.
Proof.
  destruct (process_sources_counts merge_env [sample_url] OUTPUT_FILENAME
              (sample_world ("a.com" +:+ nl +:+ "b.com" +:+ nl))
              ∅ {["b.com"; "c.com"]})
    as (n & w' & Hrun & Hn & _).
  - intros w. reflexivity.
  - intros w. reflexivity.
  - exists n, w'. split; [exact Hrun|exact Hn].
Defined.
